(** * Plantando Verdades landing page: countdown, reveal and throttle

    A shallow embedding of [script.js]: the helpers of [utils], the
    intersection-observer callback of [AnimationManager] and the
    [CountdownTimer] class, with the properties of the specification
    stated over them.

    Numbers.  JavaScript numbers are doubles; every number met here is an
    integer millisecond count (a difference of two [Date.getTime()] values)
    far below 2^53, where [/] followed by [Math.floor] and [%] are exact.
    They are modelled in [Z]: [Math.floor (a / b)] is [a / b] (floor
    division, the divisors are positive constants) and [a % b] is
    [Z.rem a b] (the sign follows the dividend, as in JavaScript). *)

From Stdlib Require Import ZArith Lia Bool List String Ascii DecimalString.
From Stdlib Require Import DecimalPos Permutation.
From stdpp Require Import gmap strings list.
Import ListNotations.

Local Open Scope string_scope.
Local Open Scope list_scope.
Local Open Scope Z_scope.

(** ** utils *)

Module utils.

(** [String(num)] on an integer: decimal digits, a leading [-] when
    negative. *)
Definition String_of (num : Z) : string :=
  NilZero.string_of_int (Z.to_int num).

(** [s.padStart(targetLength, c)] for a one-character pad string. *)
Definition padStart (targetLength : nat) (c : ascii) (s : string) : string :=
  String.append
    (string_of_list_ascii (List.repeat c (targetLength - String.length s)))
    s.

(** [padZero(num) { return String(num).padStart(2, '0'); }] *)
Definition padZero (num : Z) : string :=
  padStart 2 "0"%char (String_of num).

(** The number a string of decimal digits stands for (leading zeros
    allowed, a leading [-] for negatives); the inverse the round trip of
    [padZero] is stated against. *)
Definition decimal_value (s : string) : option Z :=
  option_map Z.of_int (NilZero.int_of_string s).

(** *** throttle

    [throttle(func, limit)] returns a closure over the flag [inThrottle].
    The closure runs [func] at once when the flag is down, raises the flag
    and asks the browser to lower it [limit] milliseconds later; calls that
    arrive while the flag is up do nothing (there is no trailing call).

    [W] is whatever [func] acts on, [A] its argument.  The pending
    [setTimeout(() => inThrottle = false, limit)] callbacks are kept by the
    time at which they fall due. *)
Section throttle.

Context {A W : Type}.
Variable func : A -> W -> W.
Variable limit : Z.

Record Throttle := mkThrottle {
  inThrottle : bool;
  resets : list Z
}.

(** [let inThrottle;] starts out undefined, which [!inThrottle] reads as
    false. *)
Definition throttle : Throttle :=
  {| inThrottle := false; resets := [] |}.

(** The browser runs the timeouts whose delay has elapsed at time [t]. *)
Definition run_timers (t : Z) (th : Throttle) : Throttle :=
  {| inThrottle :=
       if existsb (fun due => due <=? t) (resets th) then false
       else inThrottle th;
     resets := List.filter (fun due => t <? due) (resets th) |}.

(** One call of the returned closure at time [t]. *)
Definition throttled (t : Z) (args : A) (st : Throttle * W) : Throttle * W :=
  let (th, w) := st in
  if negb (inThrottle th) then
    (mkThrottle true (resets th ++ [t + limit]), func args w)
  else st.

(** An event at time [t] that calls the closure: timers that are due run
    first. *)
Definition call_at (st : Throttle * W) (ev : Z * A) : Throttle * W :=
  let (t, args) := ev in
  throttled t args (run_timers t (fst st), snd st).

Definition calls (evs : list (Z * A)) (st : Throttle * W) : Throttle * W :=
  fold_left call_at evs st.

End throttle.

(** *** debounce

    [debounce(func, wait)] returns a closure over the variable [timeout],
    the id of the timer set by the latest call.  Each call clears that
    timer and sets a new one, [wait] milliseconds ahead, whose callback
    [later] clears [timeout] once more and runs [func] on the arguments of
    the call that set it.

    [timers] are the callbacks registered with the browser and not yet
    run or cleared: id, time at which it falls due, arguments [later]
    closes over; [next_timer] is the next id the browser hands out. *)
Section debounce.

Context {A W : Type}.
Variable func : A -> W -> W.
Variable wait : Z.

Record Debounce := mkDebounce {
  timeout : option nat;
  timers : list (nat * (Z * A));
  next_timer : nat
}.

(** [let timeout;] *)
Definition debounce : Debounce :=
  {| timeout := None; timers := []; next_timer := 0 |}.

(** [clearTimeout(id)]: nothing happens for undefined or for a timer that
    has run already. *)
Definition clearTimeout (id : option nat) (l : list (nat * (Z * A)))
  : list (nat * (Z * A)) :=
  match id with
  | Some i => List.filter (fun tm => negb (Nat.eqb (fst tm) i)) l
  | None => l
  end.

(** [later = () => { clearTimeout(timeout); func(...args); }] *)
Definition later (args : A) (st : Debounce * W) : Debounce * W :=
  let (d, w) := st in
  (mkDebounce (timeout d) (clearTimeout (timeout d) (timers d)) (next_timer d),
   func args w).

(** The browser runs the timers that are due at time [t], the oldest
    first; a timer leaves the queue when it runs.  Every run removes a
    timer, so the number of timers bounds the number of runs. *)
Fixpoint run_due (fuel : nat) (t : Z) (st : Debounce * W) : Debounce * W :=
  match fuel with
  | O => st
  | S fuel' =>
      match List.find (fun tm => fst (snd tm) <=? t) (timers (fst st)) with
      | Some (id, (_, args)) =>
          let d := fst st in
          run_due fuel' t
            (later args
               (mkDebounce (timeout d) (clearTimeout (Some id) (timers d))
                           (next_timer d),
                snd st))
      | None => st
      end
  end.

Definition settle (t : Z) (st : Debounce * W) : Debounce * W :=
  run_due (List.length (timers (fst st))) t st.

(** One call of the returned closure at time [t]. *)
Definition executedFunction (t : Z) (args : A) (st : Debounce * W)
  : Debounce * W :=
  let (d, w) := st in
  (mkDebounce (Some (next_timer d))
              (clearTimeout (timeout d) (timers d)
                 ++ [(next_timer d, (t + wait, args))])
              (S (next_timer d)),
   w).

(** An event at time [t] that calls the closure: timers that are due run
    first. *)
Definition debounced_at (st : Debounce * W) (ev : Z * A) : Debounce * W :=
  let (t, args) := ev in
  executedFunction t args (settle t st).

Definition debounced_calls (evs : list (Z * A)) (st : Debounce * W)
  : Debounce * W :=
  fold_left debounced_at evs st.

(** The closure just after a call at time [t] whose timer got the id
    [id]: that timer is the only one pending. *)
Definition armed (id : nat) (t : Z) (args : A) : Debounce :=
  mkDebounce (Some id) [(id, (t + wait, args))] (S id).

End debounce.

(** *** Vocabulary for sequences of calls *)

(** Each element stands in relation [R] to the next, starting from [t]. *)
Fixpoint chain (R : Z -> Z -> Prop) (t : Z) (ts : list Z) : Prop :=
  match ts with
  | [] => True
  | t' :: ts' => R t t' /\ chain R t' ts'
  end.

(** A [func] that records the arguments it is run with, newest first. *)
Definition record {A} (args : A) (log : list A) : list A := args :: log.

End utils.

(** ** AnimationManager *)

Module CONFIG.
Definition countdownDays : Z := 3.
Definition animationDuration : Z := 600.
End CONFIG.

Module AnimationManager.

(** *** The scroll listener

    [handleScroll] is [utils.throttle(body, 16)].  The body reads
    [window.scrollY] once and derives every style it writes (navbar tint,
    scroll indicator, parallax) from that one value, so the page is
    modelled by the offsets the body has run with, oldest first. *)
Record Window := mkWindow {
  scrollY : Z;
  executed : list Z
}.

Definition handleScroll_body (_ : unit) (w : Window) : Window :=
  {| scrollY := scrollY w; executed := executed w ++ [scrollY w] |}.

(** A scroll event at time [t] with the page scrolled to [y]: the window
    takes the new offset, then the listener is called. *)
Definition scroll_event (st : utils.Throttle * Window) (ev : Z * Z)
  : utils.Throttle * Window :=
  let (t, y) := ev in
  utils.call_at handleScroll_body 16
    (fst st, mkWindow y (executed (snd st))) (t, tt).

Definition scroll_events (evs : list (Z * Z)) (st : utils.Throttle * Window)
  : utils.Throttle * Window :=
  fold_left scroll_event evs st.

(** *** Reveal on intersection

    Page elements are named by their node identity, a [nat]; [styles] holds
    the inline style of each node (a node without an entry has every
    property empty), [observed] the targets registered with the
    intersection observer. *)
Record Style := mkStyle {
  opacity : string;
  transform : string;
  transition : string;
  transitionDelay : string
}.

Definition no_style : Style := mkStyle "" "" "" "".

Record State := mkState {
  styles : gmap nat Style;
  observed : gset nat
}.

Record Entry := mkEntry {
  target : nat;
  isIntersecting : bool
}.

Definition style_of (s : State) (el : nat) : Style :=
  default no_style (styles s !! el).

(** [animateElement(element)] *)
Definition animateElement (element : nat) (s : State) : State :=
  let st := style_of s element in
  {| styles :=
       <[element := mkStyle "1" "translateY(0)" (transition st)
                            (transitionDelay st)]> (styles s);
     observed := observed s |}.

Definition unobserve (element : nat) (s : State) : State :=
  {| styles := styles s; observed := observed s ∖ {[element]} |}.

Definition observe (element : nat) (s : State) : State :=
  {| styles := styles s; observed := {[element]} ∪ observed s |}.

(** The callback given to [new IntersectionObserver]. *)
Definition on_entry (s : State) (entry : Entry) : State :=
  if isIntersecting entry then
    unobserve (target entry) (animateElement (target entry) s)
  else s.

Definition callback (entries : list Entry) (s : State) : State :=
  fold_left on_entry entries s.

(** The body of [animatedElements.forEach((el, index) => ...)]. *)
Definition prepare (s : State) (el_index : nat * nat) : State :=
  let (el, index) := el_index in
  let duration := utils.String_of CONFIG.animationDuration in
  observe el
    {| styles :=
         <[el := mkStyle "0" "translateY(30px)"
                   ("opacity " +:+ duration +:+ "ms ease-out, transform "
                      +:+ duration +:+ "ms ease-out")
                   (utils.String_of (Z.of_nat index * 100) +:+ "ms")]>
           (styles s);
       observed := observed s |}.

(** [setupIntersectionObserver()], given the nodes that
    [document.querySelectorAll] returns, in document order. *)
Definition setupIntersectionObserver (animatedElements : list nat) (s : State)
  : State :=
  fold_left prepare
    (List.combine animatedElements (List.seq 0 (List.length animatedElements)))
    {| styles := styles s; observed := ∅ |}.

(** The callback runs once per batch of entries the browser delivers. *)
Definition deliveries (batches : list (list Entry)) (s : State) : State :=
  fold_left (fun s entries => callback entries s) batches s.

Definition revealed (s : State) (el : nat) : Prop :=
  opacity (style_of s el) = "1" /\ transform (style_of s el) = "translateY(0)".

Definition hidden (s : State) (el : nat) : Prop :=
  opacity (style_of s el) = "0"
  /\ transform (style_of s el) = "translateY(30px)".

(** The targets a batch reports as intersecting. *)
Definition intersecting (entries : list Entry) : gset nat :=
  list_to_set (List.map target (List.filter isIntersecting entries)).

(** The style [animateElement] leaves on an element whose style was [st]. *)
Definition reveal_style (st : Style) : Style :=
  mkStyle "1" "translateY(0)" (transition st) (transitionDelay st).

End AnimationManager.

(** ** CountdownTimer: time arithmetic *)

Record TimeUnits := mkTimeUnits {
  days : Z;
  hours : Z;
  minutes : Z;
  seconds : Z
}.

(** [calculateTimeUnits(distance)], the four fields in the order the
    object literal lists them. *)
Definition calculateTimeUnits (distance : Z) : TimeUnits :=
  {| days := distance / (1000 * 60 * 60 * 24);
     hours := Z.rem distance (1000 * 60 * 60 * 24) / (1000 * 60 * 60);
     minutes := Z.rem distance (1000 * 60 * 60) / (1000 * 60);
     seconds := Z.rem distance (1000 * 60) / 1000 |}.

(** The test of [addPulseEffect]:
    [timeUnits.days === 0 && timeUnits.hours < 24]. *)
Definition urgent_test (timeUnits : TimeUnits) : bool :=
  (days timeUnits =? 0) && (hours timeUnits <? 24).

(** The simpler predicate the test is compared with: no whole day left. *)
Definition no_whole_day (timeUnits : TimeUnits) : bool :=
  days timeUnits =? 0.

(** ** CountdownTimer: the object, the page and the browser timers *)

Module CountdownTimer.

(** The template literals the class writes are named rather than spelled
    out: the markup [handleExpiration] assigns to [container.innerHTML]
    ([ExpiredMessage]) and the style sheets that [addVisualEffects] and
    [handleExpiration] append to [document.head] ([UrgentPulse],
    [ExpiredBounce]). *)
Inductive Content :=
| Markup (html : string)
| ExpiredMessage.

Inductive StyleSheet :=
| UrgentPulse
| ExpiredBounce
| OtherSheet (css : string).

(** A numeric field element ([#days], [#hours], [#minutes], [#seconds]):
    its text and the two inline style properties the class writes. *)
Record Field := mkField {
  textContent : string;
  transform : string;
  color : string
}.

(** The [#timer] element.  Replacing its [innerHTML] detaches whatever
    it contained; field elements that [this.elements] still refers to keep
    their own text and style. *)
Record Container := mkContainer {
  classList : gset string;
  innerHTML : Content
}.

(** [endDate] and [interval] are the object's own fields.  [this.elements]
    holds references into the page: [elements] maps the keys [days],
    [hours], [minutes], [seconds] to the element found by
    [document.getElementById] (no entry when it returned null) and
    [container] is the [#timer] element (null when absent).  [head] lists
    the style sheets appended to [document.head], oldest first.
    [intervals] are the ids of the [setInterval] timers still registered
    with the browser, [next_id] the next id it hands out, and [timeouts]
    the pending 150 ms callbacks of [animateNumberChange] (element, new
    text), oldest first. *)
Record State := mkState {
  endDate : Z;
  interval : option nat;
  elements : gmap string Field;
  container : option Container;
  head : list StyleSheet;
  intervals : gset nat;
  next_id : nat;
  timeouts : list (string * string)
}.

(** *** Completions

    A method either returns or throws a [TypeError] (a property access on
    null); what it had written before throwing stays written. *)
Inductive Completion (A : Type) :=
| Normal (a : A) (s : State)
| TypeError (s : State).
Arguments Normal {A} a s.
Arguments TypeError {A} s.

Definition M (A : Type) : Type := State -> Completion A.

#[global] Instance M_ret : MRet M := fun A a s => Normal a s.

#[global] Instance M_bind : MBind M := fun A B f m s =>
  match m s with
  | Normal a s' => f a s'
  | TypeError s' => TypeError s'
  end.

Definition get : M State := fun s => Normal s s.

Definition modify (f : State -> State) : M unit := fun s => Normal tt (f s).

Definition state_of {A} (c : Completion A) : State :=
  match c with
  | Normal _ s => s
  | TypeError s => s
  end.

Fixpoint forEach {A} (l : list A) (f : A -> M unit) : M unit :=
  match l with
  | [] => mret tt
  | x :: l' => f x ;; forEach l' f
  end.

(** *** Field setters *)

Definition set_endDate (v : Z) (s : State) : State :=
  mkState v (interval s) (elements s) (container s) (head s)
          (intervals s) (next_id s) (timeouts s).

Definition set_interval (v : option nat) (s : State) : State :=
  mkState (endDate s) v (elements s) (container s) (head s)
          (intervals s) (next_id s) (timeouts s).

Definition set_elements (v : gmap string Field) (s : State) : State :=
  mkState (endDate s) (interval s) v (container s) (head s)
          (intervals s) (next_id s) (timeouts s).

Definition set_container (v : option Container) (s : State) : State :=
  mkState (endDate s) (interval s) (elements s) v (head s)
          (intervals s) (next_id s) (timeouts s).

Definition set_head (v : list StyleSheet) (s : State) : State :=
  mkState (endDate s) (interval s) (elements s) (container s) v
          (intervals s) (next_id s) (timeouts s).

Definition set_timers (ids : gset nat) (next : nat) (s : State) : State :=
  mkState (endDate s) (interval s) (elements s) (container s) (head s)
          ids next (timeouts s).

Definition set_timeouts (v : list (string * string)) (s : State) : State :=
  mkState (endDate s) (interval s) (elements s) (container s) (head s)
          (intervals s) (next_id s) v.

(** *** Browser primitives *)

(** [setInterval(cb, 1000)]: registers a timer and returns its id. *)
Definition setInterval : M nat := fun s =>
  Normal (next_id s)
         (set_timers ({[next_id s]} ∪ intervals s) (S (next_id s)) s).

(** [clearInterval(id)]: nothing happens for null or for an id that is not
    registered. *)
Definition clearInterval (id : option nat) : M unit :=
  modify (fun s =>
    match id with
    | Some i => set_timers (intervals s ∖ {[i]}) (next_id s) s
    | None => s
    end).

(** [document.head.appendChild(style)] *)
Definition appendChild_head (sheet : StyleSheet) : M unit :=
  modify (fun s => set_head (head s ++ [sheet]) s).

(** Reading [this.elements.container.<property>]: throws on null. *)
Definition the_container : M Container := fun s =>
  match container s with
  | Some c => Normal c s
  | None => TypeError s
  end.

(** *** Methods *)

(** [Object.keys(timeUnits)] paired with the field's value. *)
Definition Object_entries (timeUnits : TimeUnits) : list (string * Z) :=
  [("days", days timeUnits); ("hours", hours timeUnits);
   ("minutes", minutes timeUnits); ("seconds", seconds timeUnits)].

(** [animateNumberChange(element, newValue)]; the element is named by its
    key in [this.elements]. *)
Definition animateNumberChange (key : string) (newValue : string) : M unit :=
  modify (fun s =>
    set_timeouts (timeouts s ++ [(key, newValue)])
      (set_elements
         (alter (fun el => mkField (textContent el) "scale(1.1)" "#f5576c")
                key (elements s)) s)).

(** The callback [animateNumberChange] hands to [setTimeout]. *)
Definition write_text (key : string) (newValue : string) (s : State) : State :=
  set_elements
    (alter (fun _ => mkField newValue "scale(1)" "") key (elements s)) s.

(** The arrow function [updateElements] gives to [forEach]. *)
Definition update_field (entry : string * Z) : M unit :=
  let (key, value) := entry in
  s ← get;
  match elements s !! key with
  | Some el =>
      let newValue := utils.padZero value in
      if negb (String.eqb (textContent el) newValue) then
        animateNumberChange key newValue
      else mret tt
  | None => mret tt
  end.

Definition updateElements (timeUnits : TimeUnits) : M unit :=
  forEach (Object_entries timeUnits) update_field.

Definition addPulseEffect (timeUnits : TimeUnits) : M unit :=
  if urgent_test timeUnits then
    c ← the_container;
    modify (set_container
              (Some (mkContainer ({["urgent"]} ∪ classList c) (innerHTML c))))
  else mret tt.

Definition addVisualEffects : M unit :=
  appendChild_head UrgentPulse.

Definition handleExpiration : M unit :=
  s ← get;
  clearInterval (interval s) ;;
  c ← the_container;
  modify (set_container (Some (mkContainer (classList c) ExpiredMessage))) ;;
  appendChild_head ExpiredBounce.

(** [updateDisplay()]; [now] is what [new Date().getTime()] returns. *)
Definition updateDisplay (now : Z) : M unit :=
  s ← get;
  let distance := endDate s - now in
  if distance <? 0 then handleExpiration
  else
    let timeUnits := calculateTimeUnits distance in
    updateElements timeUnits ;;
    addPulseEffect timeUnits.

Definition startCountdown (now : Z) : M unit :=
  updateDisplay now ;;
  id ← setInterval;
  modify (set_interval (Some id)).

Definition init (now : Z) : M unit :=
  s ← get;
  match container s with
  | None => mret tt
  | Some _ =>
      startCountdown now ;;
      addVisualEffects
  end.

(** [new CountdownTimer()] on a page: [t0] is the clock read for
    [endDate], [t1] the clock read by the first [updateDisplay]. *)
Definition constructor (t0 t1 : Z) : M unit :=
  modify (set_endDate (t0 + CONFIG.countdownDays * 24 * 60 * 60 * 1000)) ;;
  modify (set_interval None) ;;
  init t1.

(** *** What the browser does afterwards

    The interval callback is [() => this.updateDisplay()]; the browser
    calls it only while the timer is registered.  An exception that
    escapes a callback ends that callback and nothing else.  Timeouts all
    carry the same delay, so they run oldest first. *)
Inductive Event :=
| IntervalFires (id : nat) (now : Z)
| TimeoutFires.

Definition step (s : State) (ev : Event) : State :=
  match ev with
  | IntervalFires id now =>
      if decide (id ∈ intervals s) then state_of (updateDisplay now s) else s
  | TimeoutFires =>
      match timeouts s with
      | [] => s
      | (key, newValue) :: rest =>
          write_text key newValue (set_timeouts rest s)
      end
  end.

Definition run (evs : list Event) (s : State) : State :=
  fold_left step evs s.

(** All pending timeouts run. *)
Definition flush (s : State) : State :=
  run (List.repeat TimeoutFires (List.length (timeouts s))) s.

(** The text a field shows, if the element exists. *)
Definition shown (s : State) (key : string) : option string :=
  textContent <$> elements s !! key.

(** How many times the expiry render has been performed. *)
Definition expiry_renders (s : State) : nat :=
  List.length (List.filter
    (fun sh => match sh with ExpiredBounce => true | _ => false end)
    (head s)).

(** *** Vocabulary of the statements *)

(** The element exists and its text is not the rendered value. *)
Definition needs_update (s : State) (entry : string * Z) : bool :=
  match elements s !! fst entry with
  | Some el => negb (String.eqb (textContent el) (utils.padZero (snd entry)))
  | None => false
  end.

(** The write a changed field is scheduled for. *)
Definition rendered (entry : string * Z) : string * string :=
  (fst entry, utils.padZero (snd entry)).

(** What [updateElements] leaves alone: everything but the fields and the
    pending writes. *)
Record same_frame (s s' : State) : Prop := {
  frame_endDate : endDate s' = endDate s;
  frame_interval : interval s' = interval s;
  frame_container : container s' = container s;
  frame_head : head s' = head s;
  frame_intervals : intervals s' = intervals s;
  frame_next_id : next_id s' = next_id s
}.

(** The state [handleExpiration] returns when the container [c] exists:
    the timer is cleared, the content replaced, one style sheet added. *)
Definition expire (c : Container) (s : State) : State :=
  set_head (head s ++ [ExpiredBounce])
    (set_container (Some (mkContainer (classList c) ExpiredMessage))
       (match interval s with
        | Some i => set_timers (intervals s ∖ {[i]}) (next_id s) s
        | None => s
        end)).

(** The urgent mode: the container carries the class [urgent]. *)
Definition urgent (s : State) : Prop :=
  exists c, container s = Some c /\ "urgent" ∈ classList c.

(** An event of the timer [id], or a timeout. *)
Definition of_timer (id : nat) (ev : Event) : Prop :=
  match ev with
  | IntervalFires id' _ => id' = id
  | TimeoutFires => True
  end.

(** The Expired display: the container holds the expiry message. *)
Definition expired (s : State) : Prop :=
  exists c, container s = Some c /\ innerHTML c = ExpiredMessage.

(** *** A sample page

    A running countdown: the container and the four fields exist, the
    deadline is at clock 1000, the fields show 00:00:00:01 and the timer 1
    is registered. *)
Definition sample_container : Container :=
  mkContainer ∅ (Markup "<div class='time-unit'>...</div>").

Definition sample : State :=
  {| endDate := 1000;
     interval := Some 1%nat;
     elements :=
       <["days" := mkField "00" "" ""]>
         (<["hours" := mkField "00" "" ""]>
            (<["minutes" := mkField "00" "" ""]>
               (<["seconds" := mkField "01" "" ""]> ∅)));
     container := Some sample_container;
     head := [UrgentPulse];
     intervals := {[1%nat]};
     next_id := 2;
     timeouts := [] |}.

(** The same page without the [#timer] element, before any script ran. *)
Definition sample_without_container : State :=
  {| endDate := 0;
     interval := None;
     elements := elements sample;
     container := None;
     head := [];
     intervals := ∅;
     next_id := 1;
     timeouts := [] |}.

End CountdownTimer.

(** ** AnimationManager: what the scroll listener writes

    The body of the scroll listener and [updateParallax] compute with
    floating-point numbers.  Their arithmetic is taken as given: [Num] is
    the type of JavaScript numbers, [fdiv], [fmul], [fmin], [fgt] are [/],
    [*], [Math.min], [>], [of_Z] converts an integer, [to_string] is the
    conversion a template literal applies, and [n0_95], [n0_5], [n0_1]
    are the literals 0.95, 0.5 ([CONFIG.parallaxSpeed]) and 0.1.  Every
    statement below holds whatever these are. *)

Module ScrollAnimations.

Section numbers.

Context {Num : Type}.
Variables (fdiv fmul fmin : Num -> Num -> Num) (fgt : Num -> Num -> bool).
Variables (of_Z : Z -> Num) (to_string : Num -> string).
Variables (n0_95 n0_5 n0_1 : Num).

(** The inline styles the listener writes: opacity and transform live in
    the same store as the reveal styles, background and backdrop filter
    beside it. *)
Record Page := mkPage {
  reveal : AnimationManager.State;
  background : gmap nat string;
  backdropFilter : gmap nat string
}.

(** What the [querySelector] calls of the setup found: the first
    [.navbar], the first [.scroll-indicator] (null when absent) and the
    [.floating-shape] elements in document order. *)
Record Found := mkFound {
  navbar : option nat;
  scrollIndicator : option nat;
  floatingShapes : list nat
}.

Definition set_opacity (el : nat) (v : string) (s : AnimationManager.State)
  : AnimationManager.State :=
  let st := AnimationManager.style_of s el in
  AnimationManager.mkState
    (<[el := AnimationManager.mkStyle v (AnimationManager.transform st)
               (AnimationManager.transition st)
               (AnimationManager.transitionDelay st)]>
       (AnimationManager.styles s))
    (AnimationManager.observed s).

Definition set_transform (el : nat) (v : string) (s : AnimationManager.State)
  : AnimationManager.State :=
  let st := AnimationManager.style_of s el in
  AnimationManager.mkState
    (<[el := AnimationManager.mkStyle (AnimationManager.opacity st) v
               (AnimationManager.transition st)
               (AnimationManager.transitionDelay st)]>
       (AnimationManager.styles s))
    (AnimationManager.observed s).

(** The transform [updateParallax] gives the shape at position [index]. *)
Definition parallax_transform (scrollY : Num) (index : nat) : string :=
  let speed := fmul (of_Z (Z.of_nat index + 1)) n0_5 in
  let yPos := fmul scrollY speed in
  "translateY(" +:+ to_string yPos +:+ "px) rotate("
    +:+ to_string (fmul yPos n0_1) +:+ "deg)".

(** The body of [this.floatingShapes.forEach((shape, index) => ...)]. *)
Definition move_shape (scrollY : Num) (s : AnimationManager.State)
           (shape_index : nat * nat) : AnimationManager.State :=
  let (shape, index) := shape_index in
  set_transform shape (parallax_transform scrollY index) s.

Definition updateParallax (scrollY : Num) (shapes : list nat)
           (s : AnimationManager.State) : AnimationManager.State :=
  fold_left (move_shape scrollY)
    (List.combine shapes (List.seq 0 (List.length shapes))) s.

Definition navbar_background (scrollY : Num) : string :=
  let opacity := fmin (fdiv scrollY (of_Z 100)) n0_95 in
  "rgba(255, 255, 255, " +:+ to_string opacity +:+ ")".

Definition navbar_backdropFilter (scrollY : Num) : string :=
  if fgt scrollY (of_Z 50) then "blur(20px)" else "blur(10px)".

Definition indicator_opacity (scrollY : Num) : string :=
  if fgt scrollY (of_Z 100) then "0" else "0.7".

(** The function given to [utils.throttle], run with [window.scrollY]
    equal to [scrollY]. *)
Definition handleScroll (found : Found) (scrollY : Num) (p : Page) : Page :=
  let p1 :=
    match navbar found with
    | Some nb =>
        mkPage (reveal p)
               (<[nb := navbar_background scrollY]> (background p))
               (<[nb := navbar_backdropFilter scrollY]> (backdropFilter p))
    | None => p
    end in
  let p2 :=
    match scrollIndicator found with
    | Some si =>
        mkPage (set_opacity si (indicator_opacity scrollY) (reveal p1))
               (background p1) (backdropFilter p1)
    | None => p1
    end in
  mkPage (updateParallax scrollY (floatingShapes found) (reveal p2))
         (background p2) (backdropFilter p2).

(** The position at which [updateParallax] last writes [el], if any,
    among shapes numbered from [k]. *)
Fixpoint last_position (shapes : list nat) (k : nat) (el : nat) : option nat :=
  match shapes with
  | [] => None
  | shape :: shapes' =>
      match last_position shapes' (S k) el with
      | Some i => Some i
      | None => if decide (shape = el) then Some k else None
      end
  end.

(** What one run of the listener leaves on element [el], given what was
    there: the opacity when [el] is the scroll indicator, the transform
    when it is a floating shape. *)
Definition written_style (found : Found) (scrollY : Num) (el : nat)
           (st : AnimationManager.Style) : AnimationManager.Style :=
  AnimationManager.mkStyle
    (if decide (scrollIndicator found = Some el) then indicator_opacity scrollY
     else AnimationManager.opacity st)
    (match last_position (floatingShapes found) 0 el with
     | Some i => parallax_transform scrollY i
     | None => AnimationManager.transform st
     end)
    (AnimationManager.transition st)
    (AnimationManager.transitionDelay st).

End numbers.

End ScrollAnimations.

(** ** InteractiveEffects: the click ripple

    The geometry of a ripple is floating-point arithmetic on the bounding
    rectangle and the pointer position; as for the scroll listener it is
    taken as given ([fmax] is [Math.max], [fsub] is [-], [fhalf] divides
    by 2). *)

Module Ripple.

Section numbers.

Context {Num : Type}.
Variables (fmax fsub : Num -> Num -> Num) (fhalf : Num -> Num).
Variable to_string : Num -> string.

(** The declarations of [ripple.style.cssText] that vary; the others are
    constants of the template. *)
Record RippleStyle := mkRippleStyle {
  width : string;
  height : string;
  left : string;
  top : string
}.

(** A button: the two inline properties the effect sets and the ripple
    spans appended to it, each with its node identity. *)
Record Button := mkButton {
  position : string;
  overflow : string;
  ripples : list (nat * RippleStyle)
}.

Definition no_button : Button := mkButton "" "" [].

(** [buttons] holds the buttons by node identity (a node without an entry
    has nothing set and no ripple), [head] the ids of the style elements
    in [document.head] (the page is taken to carry the id
    [ripple-animation] nowhere else), [removals] the spans whose 600 ms
    removal is pending, oldest first, and [next_node] the identity of the
    next element [document.createElement] makes. *)
Record State := mkState {
  buttons : gmap nat Button;
  head : list string;
  removals : list nat;
  next_node : nat
}.

(** [element.getBoundingClientRect()] and the pointer position of the
    click event. *)
Record Click := mkClick {
  rect_width : Num;
  rect_height : Num;
  rect_left : Num;
  rect_top : Num;
  clientX : Num;
  clientY : Num
}.

Definition button_of (s : State) (element : nat) : Button :=
  default no_button (buttons s !! element).

Definition px (n : Num) : string := to_string n +:+ "px".

(** [createRippleEffect(event, element)] *)
Definition createRippleEffect (event : Click) (element : nat) (s : State)
  : State :=
  let ripple := next_node s in
  let size := fmax (rect_width event) (rect_height event) in
  let x := fsub (fsub (clientX event) (rect_left event)) (fhalf size) in
  let y := fsub (fsub (clientY event) (rect_top event)) (fhalf size) in
  let style := mkRippleStyle (px size) (px size) (px x) (px y) in
  let b := button_of s element in
  let buttons' :=
    <[element := mkButton "relative" "hidden" (ripples b ++ [(ripple, style)])]>
      (buttons s) in
  let head' :=
    if bool_decide ("ripple-animation" ∈ head s) then head s
    else head s ++ ["ripple-animation"] in
  mkState buttons' head' (removals s ++ [ripple]) (S ripple).

(** [ripple.remove()]: the span leaves its parent, wherever it is. *)
Definition remove (ripple : nat) (s : State) : State :=
  mkState
    ((fun b => mkButton (position b) (overflow b)
                 (List.filter (fun r => negb (Nat.eqb (fst r) ripple))
                              (ripples b)))
       <$> buttons s)
    (head s) (removals s) (next_node s).

(** A click on a button, or the browser running the oldest pending
    removal. *)
Inductive Event :=
| Clicked (element : nat) (event : Click)
| RemovalFires.

Definition step (s : State) (ev : Event) : State :=
  match ev with
  | Clicked element event => createRippleEffect event element s
  | RemovalFires =>
      match removals s with
      | [] => s
      | ripple :: rest =>
          remove ripple (mkState (buttons s) (head s) rest (next_node s))
      end
  end.

Definition run (evs : list Event) (s : State) : State :=
  fold_left step evs s.

(** All pending removals run. *)
Definition flush (s : State) : State :=
  run (List.repeat RemovalFires (List.length (removals s))) s.

(** A page on which no button was clicked yet. *)
Definition fresh (head0 : list string) : State := mkState ∅ head0 [] 0.

(** Every ripple still in the page has its removal pending. *)
Definition ripples_pending (s : State) : Prop :=
  forall el b r,
    buttons s !! el = Some b ->
    In r (List.map fst (ripples b)) -> In r (removals s).

Definition is_click (ev : Event) : bool :=
  match ev with
  | Clicked _ _ => true
  | RemovalFires => false
  end.

End numbers.

End Ripple.

(** ** InteractiveEffects: the card tilt

    The cards are reveal targets too, so the tilt writes to the inline
    styles the reveal uses.  The arithmetic on the bounding rectangle and
    the pointer position is taken as given, as above. *)

Module CardTilt.

Section numbers.

Context {Num : Type}.
Variables (fadd fsub fdiv : Num -> Num -> Num).
Variables (of_Z : Z -> Num) (to_string : Num -> string).

Definition set_transition (el : nat) (v : string) (s : AnimationManager.State)
  : AnimationManager.State :=
  let st := AnimationManager.style_of s el in
  AnimationManager.mkState
    (<[el := AnimationManager.mkStyle (AnimationManager.opacity st)
               (AnimationManager.transform st) v
               (AnimationManager.transitionDelay st)]>
       (AnimationManager.styles s))
    (AnimationManager.observed s).

(** [card.getBoundingClientRect()] and the pointer position of a
    [mousemove] event. *)
Record Move := mkMove {
  rect_left : Num;
  rect_top : Num;
  rect_width : Num;
  rect_height : Num;
  clientX : Num;
  clientY : Num
}.

(** [addCardTilt(card)] *)
Definition addCardTilt (card : nat) (s : AnimationManager.State)
  : AnimationManager.State :=
  set_transition card "transform 0.1s ease-out" s.

(** [removeCardTilt(card)] *)
Definition removeCardTilt (card : nat) (s : AnimationManager.State)
  : AnimationManager.State :=
  set_transition card "transform 0.3s ease-out"
    (ScrollAnimations.set_transform card
       "translateY(0) rotateX(0) rotateY(0)" s).

(** [updateCardTilt(event, card)] *)
Definition updateCardTilt (event : Move) (card : nat)
           (s : AnimationManager.State) : AnimationManager.State :=
  let centerX := fadd (rect_left event) (fdiv (rect_width event) (of_Z 2)) in
  let centerY := fadd (rect_top event) (fdiv (rect_height event) (of_Z 2)) in
  let mouseX := clientX event in
  let mouseY := clientY event in
  let rotateX := fdiv (fsub mouseY centerY) (of_Z 10) in
  let rotateY := fdiv (fsub centerX mouseX) (of_Z 10) in
  ScrollAnimations.set_transform card
    ("translateY(-10px) rotateX(" +:+ to_string rotateX +:+ "deg) rotateY("
       +:+ to_string rotateY +:+ "deg)") s.

(** What happens to the cards afterwards: the pointer enters, leaves or
    moves over a card, or the intersection observer delivers a batch. *)
Inductive Event :=
| MouseEnter (card : nat)
| MouseLeave (card : nat)
| MouseMove (card : nat) (event : Move)
| Intersections (entries : list AnimationManager.Entry).

Definition step (s : AnimationManager.State) (ev : Event)
  : AnimationManager.State :=
  match ev with
  | MouseEnter card => addCardTilt card s
  | MouseLeave card => removeCardTilt card s
  | MouseMove card event => updateCardTilt event card s
  | Intersections entries => AnimationManager.callback entries s
  end.

Definition run (evs : list Event) (s : AnimationManager.State)
  : AnimationManager.State :=
  fold_left step evs s.


End numbers.

End CardTilt.

(** ** PerformanceOptimizer: lazy images *)

Module LazyImages.

(** An [img[data-src]] element: its [src], its [data-src] attribute and
    its classes. *)
Record Image := mkImage {
  src : string;
  dataset_src : string;
  classList : gset string
}.

Record State := mkState {
  images : gmap nat Image;
  observed : gset nat
}.

(** The callback of [imageObserver] on one entry. *)
Definition on_entry (s : State) (entry : AnimationManager.Entry) : State :=
  if AnimationManager.isIntersecting entry then
    let img := AnimationManager.target entry in
    mkState
      (alter (fun i => mkImage (dataset_src i) (dataset_src i)
                         (classList i ∖ {["lazy"]}))
             img (images s))
      (observed s ∖ {[img]})
  else s.

Definition callback (entries : list AnimationManager.Entry) (s : State)
  : State :=
  fold_left on_entry entries s.

Definition deliveries (batches : list (list AnimationManager.Entry))
           (s : State) : State :=
  fold_left (fun s entries => callback entries s) batches s.

(** [lazyLoadImages()]; [supported] is ['IntersectionObserver' in window]
    and [found] the nodes [document.querySelectorAll] returns. *)
Definition lazyLoadImages (supported : bool) (found : list nat) (s : State)
  : State :=
  if supported then
    fold_left (fun s img => mkState (images s) ({[img]} ∪ observed s)) found
              (mkState (images s) ∅)
  else mkState (images s) ∅.

(** The image has been given its real source. *)
Definition loaded (s : State) (img : nat) : Prop :=
  exists i, images s !! img = Some i
            /\ src i = dataset_src i /\ "lazy" ∉ classList i.

End LazyImages.

Example padZero_7 : utils.padZero 7 = "07".
Proof. reflexivity. Qed.

Example padZero_59 : utils.padZero 59 = "59".
Proof. reflexivity. Qed.

Example padZero_0 : utils.padZero 0 = "00".
Proof. reflexivity. Qed.

Example padZero_123 : utils.padZero 123 = "123".
Proof. reflexivity. Qed.

Example calculateTimeUnits_3_days :
  calculateTimeUnits 259200000 = mkTimeUnits 3 0 0 0.
Proof. reflexivity. Qed.

Example calculateTimeUnits_just_below_3_days :
  calculateTimeUnits 259199999 = mkTimeUnits 2 23 59 59.
Proof. reflexivity. Qed.

(** On a negative delta (never passed by [updateDisplay]) floor and [%]
    disagree with the mathematical modulo, as in JavaScript. *)
Example calculateTimeUnits_negative :
  calculateTimeUnits (-1) = mkTimeUnits (-1) (-1) (-1) (-1).
Proof. reflexivity. Qed.

(** * Properties *)

(** ** Time arithmetic *)

Section TimeArithmetic.

Variable ms : Z.
Hypothesis ms_nonneg : 0 <= ms.

(** On a non-negative delta JavaScript's [%] by a positive constant is the
    mathematical modulo. *)
Lemma rem_is_mod (d : Z) : 0 < d -> Z.rem ms d = ms mod d.
Proof using ms_nonneg. intros Hd. apply Z.rem_mod_nonneg; lia. Qed.

Lemma calculateTimeUnits_mod :
  calculateTimeUnits ms =
  {| days := ms / 86400000;
     hours := (ms mod 86400000) / 3600000;
     minutes := (ms mod 3600000) / 60000;
     seconds := (ms mod 60000) / 1000 |}.
Proof using ms_nonneg.
  unfold calculateTimeUnits.
  change (1000 * 60 * 60 * 24) with 86400000.
  change (1000 * 60 * 60) with 3600000.
  change (1000 * 60) with 60000.
  now rewrite !rem_is_mod by lia.
Qed.

Lemma calculateTimeUnits_bounds :
  0 <= days (calculateTimeUnits ms)
  /\ 0 <= hours (calculateTimeUnits ms) <= 23
  /\ 0 <= minutes (calculateTimeUnits ms) <= 59
  /\ 0 <= seconds (calculateTimeUnits ms) <= 59.
Proof using ms_nonneg.
  rewrite calculateTimeUnits_mod; cbn [days hours minutes seconds].
  repeat split; Z.div_mod_to_equations; lia.
Qed.

End TimeArithmetic.

(** Every integer from 0 to 99 prints as exactly two characters. *)
Lemma padZero_two_chars (n : Z) :
  0 <= n <= 99 -> String.length (utils.padZero n) = 2%nat.
Proof.
  intros Hn.
  assert (H : forallb
                (fun k => Nat.eqb (String.length (utils.padZero (Z.of_nat k))) 2)
                (List.seq 0 100) = true) by (vm_compute; reflexivity).
  rewrite forallb_forall in H.
  specialize (H (Z.to_nat n)).
  rewrite Z2Nat.id in H by lia.
  apply Nat.eqb_eq, H, in_seq. lia.
Qed.

(** C1. For every non-negative millisecond delta the four fields are the
    floor quotients the specification lists, and the time they stand for
    is the delta rounded down to a whole second:
    days*86400000 + hours*3600000 + minutes*60000 + seconds*1000 <= ms
    < that sum + 1000. *)
Theorem calculateTimeUnits_decomposition (ms : Z) :
  0 <= ms ->
  let tu := calculateTimeUnits ms in
  days tu = ms / 86400000
  /\ hours tu = (ms mod 86400000) / 3600000
  /\ minutes tu = (ms mod 3600000) / 60000
  /\ seconds tu = (ms mod 60000) / 1000
  /\ days tu * 86400000 + hours tu * 3600000 + minutes tu * 60000
       + seconds tu * 1000 <= ms
  /\ ms < days tu * 86400000 + hours tu * 3600000 + minutes tu * 60000
           + seconds tu * 1000 + 1000.
Proof.
  intros Hms tu; subst tu.
  rewrite calculateTimeUnits_mod by assumption.
  cbn [days hours minutes seconds].
  repeat split; Z.div_mod_to_equations; lia.
Qed.

Lemma calculateTimeUnits_decomposition_witness :
  0 <= 259199999
  /\ days (calculateTimeUnits 259199999) = 2
  /\ seconds (calculateTimeUnits 259199999) = 59.
Proof.
  split; [lia|].
  pose proof (calculateTimeUnits_decomposition 259199999 ltac:(lia)) as H.
  cbv zeta in H.
  destruct H as (Hd & _ & _ & Hs & _).
  split; [rewrite Hd | rewrite Hs]; reflexivity.
Defined.

(** C9. For every non-negative millisecond delta the computed units obey
    0 <= hours <= 23, 0 <= minutes <= 59, 0 <= seconds <= 59 and
    days >= 0, hence [padZero] renders hours, minutes and seconds as
    exactly two characters. *)
Theorem time_units_in_range_and_two_chars (ms : Z) :
  0 <= ms ->
  let tu := calculateTimeUnits ms in
  (0 <= days tu /\ 0 <= hours tu <= 23 /\ 0 <= minutes tu <= 59
   /\ 0 <= seconds tu <= 59)
  /\ String.length (utils.padZero (hours tu)) = 2%nat
  /\ String.length (utils.padZero (minutes tu)) = 2%nat
  /\ String.length (utils.padZero (seconds tu)) = 2%nat.
Proof.
  intros Hms tu; subst tu.
  pose proof (calculateTimeUnits_bounds ms Hms) as (Hd & Hh & Hm & Hs).
  split; [auto|].
  repeat split; apply padZero_two_chars; lia.
Qed.

Lemma time_units_in_range_and_two_chars_witness :
  0 <= 86399999
  /\ String.length (utils.padZero (hours (calculateTimeUnits 86399999))) = 2%nat.
Proof.
  split; [lia|].
  apply (time_units_in_range_and_two_chars 86399999); lia.
Defined.

(** C10. For every non-negative millisecond delta the test of
    [addPulseEffect], days = 0 and hours < 24, agrees with the test
    days = 0 alone: the second conjunct always holds. *)
Theorem urgent_test_is_no_whole_day (ms : Z) :
  0 <= ms ->
  urgent_test (calculateTimeUnits ms) = no_whole_day (calculateTimeUnits ms)
  /\ (hours (calculateTimeUnits ms) <? 24) = true.
Proof.
  intros Hms.
  pose proof (calculateTimeUnits_bounds ms Hms) as (_ & Hh & _).
  assert (E : (hours (calculateTimeUnits ms) <? 24) = true)
    by (apply Z.ltb_lt; lia).
  split; [|exact E].
  unfold urgent_test, no_whole_day. rewrite E. apply andb_true_r.
Qed.

Lemma urgent_test_is_no_whole_day_witness :
  0 <= 3600000
  /\ urgent_test (calculateTimeUnits 3600000)
     = no_whole_day (calculateTimeUnits 3600000).
Proof.
  split; [lia|].
  apply (urgent_test_is_no_whole_day 3600000); lia.
Defined.

(** ** utils.throttle *)

Section ThrottleFacts.

Context {A W : Type}.
Variable func : A -> W -> W.
Variable limit : Z.

(** While the flag is up and its reset is not yet due, a call changes
    nothing. *)
Lemma call_in_throttle (due t : Z) (args : A) (w : W) :
  t < due ->
  utils.call_at func limit (utils.mkThrottle true [due], w) (t, args)
  = (utils.mkThrottle true [due], w).
Proof.
  intros Ht. unfold utils.call_at, utils.run_timers; cbn.
  destruct (Z.leb_spec due t); [lia|].
  destruct (Z.ltb_spec t due); [|lia].
  reflexivity.
Qed.

Lemma calls_in_throttle (due : Z) (evs : list (Z * A)) (w : W) :
  Forall (fun ev => fst ev < due) evs ->
  utils.calls func limit evs (utils.mkThrottle true [due], w)
  = (utils.mkThrottle true [due], w).
Proof.
  induction 1 as [|[t args] evs Ht _ IH]; [reflexivity|].
  unfold utils.calls in *; cbn [fold_left].
  rewrite call_in_throttle by exact Ht. exact IH.
Qed.

(** The first call of an interval runs [func]; the calls that follow
    before the reset falls due are dropped. *)
Lemma calls_one_interval (th : utils.Throttle) (w : W) (t1 : Z) (a1 : A)
      (rest : list (Z * A)) :
  utils.run_timers t1 th = utils.throttle ->
  Forall (fun ev => fst ev < t1 + limit) rest ->
  utils.calls func limit ((t1, a1) :: rest) (th, w)
  = (utils.mkThrottle true [t1 + limit], func a1 w).
Proof.
  intros Hready Hrest.
  unfold utils.calls; cbn [fold_left].
  unfold utils.call_at at 2; cbn [fst snd].
  rewrite Hready; cbn.
  now apply calls_in_throttle.
Qed.

End ThrottleFacts.

(** ** AnimationManager: the throttled scroll listener *)

Section ScrollListener.

Import AnimationManager.

Lemma scroll_events_in_throttle (due : Z) (evs : list (Z * Z)) (w : Window) :
  Forall (fun ev => fst ev < due) evs ->
  executed (snd (scroll_events evs (utils.mkThrottle true [due], w)))
  = executed w.
Proof.
  intros H; revert w.
  induction H as [|[t y] evs Ht _ IH]; intros w; [reflexivity|].
  unfold scroll_events in *; cbn [fold_left].
  unfold scroll_event at 2; cbn [fst snd].
  rewrite call_in_throttle by exact Ht.
  now rewrite IH.
Qed.

End ScrollListener.

(** C2, as the code has it.  Of N >= 1 scroll events that arrive within one
    throttle interval of 16 ms, counted from the first of them, the handler
    body runs exactly once, on the first event, and with the scroll offset
    the page has at that first event; the offsets of the later events of
    the interval are not used. *)
Theorem scroll_handler_runs_once_with_first_offset
        (th : utils.Throttle) (w : AnimationManager.Window)
        (t1 y1 : Z) (rest : list (Z * Z)) :
  utils.run_timers t1 th = utils.throttle ->
  Forall (fun ev => fst ev < t1 + 16) rest ->
  AnimationManager.executed
    (snd (AnimationManager.scroll_events ((t1, y1) :: rest) (th, w)))
  = AnimationManager.executed w ++ [y1].
Proof.
  intros Hready Hrest.
  unfold AnimationManager.scroll_events; cbn [fold_left].
  unfold AnimationManager.scroll_event at 2; cbn [fst snd].
  unfold utils.call_at; cbn [fst snd]. rewrite Hready; cbn.
  now rewrite (scroll_events_in_throttle (t1 + 16) rest).
Qed.

Lemma scroll_handler_runs_once_with_first_offset_witness :
  AnimationManager.executed
    (snd (AnimationManager.scroll_events [(100, 10); (105, 20); (115, 30)]
            (utils.throttle, AnimationManager.mkWindow 0 [])))
  = [10].
Proof.
  apply (scroll_handler_runs_once_with_first_offset
           utils.throttle (AnimationManager.mkWindow 0 []) 100 10
           [(105, 20); (115, 30)]).
  - reflexivity.
  - repeat constructor; cbn; lia.
Defined.

(** C2, as stated, fails: three scroll events within one 16 ms interval
    with offsets 10, 20 and 30 make the body run once, with 10 and not
    with the last offset 30. *)
Lemma scroll_handler_last_offset_counterexample :
  let evs := [(0, 10); (5, 20); (10, 30)] in
  Forall (fun ev => 0 <= fst ev < 0 + 16) evs
  /\ AnimationManager.executed
       (snd (AnimationManager.scroll_events evs
               (utils.throttle, AnimationManager.mkWindow 0 [])))
     <> [30].
Proof.
  split.
  - repeat constructor; cbn; lia.
  - vm_compute. discriminate.
Qed.

(** ** AnimationManager: reveal on intersection *)

Section Reveal.

Import AnimationManager.

Lemma style_of_animateElement (s : State) (element el : nat) :
  style_of (animateElement element s) el
  = if decide (element = el)
    then mkStyle "1" "translateY(0)" (transition (style_of s el))
                 (transitionDelay (style_of s el))
    else style_of s el.
Proof.
  unfold style_of, animateElement; cbn [styles].
  rewrite lookup_insert. destruct (decide (element = el)); subst; reflexivity.
Qed.

Lemma style_of_on_entry (s : State) (entry : Entry) (el : nat) :
  style_of (on_entry s entry) el
  = if isIntersecting entry && bool_decide (target entry = el)
    then mkStyle "1" "translateY(0)" (transition (style_of s el))
                 (transitionDelay (style_of s el))
    else style_of s el.
Proof.
  unfold on_entry. destruct (isIntersecting entry); cbn [andb]; [|reflexivity].
  change (style_of (unobserve (target entry) (animateElement (target entry) s)) el)
    with (style_of (animateElement (target entry) s) el).
  rewrite style_of_animateElement.
  destruct (decide (target entry = el)) as [E|E].
  - now rewrite bool_decide_eq_true_2.
  - now rewrite bool_decide_eq_false_2.
Qed.

(** A revealed element keeps its whole inline style through any entry. *)
Lemma on_entry_keeps_revealed (s : State) (entry : Entry) (el : nat) :
  revealed s el -> style_of (on_entry s entry) el = style_of s el.
Proof.
  intros [Ho Ht]. rewrite style_of_on_entry.
  destruct (isIntersecting entry && bool_decide (target entry = el));
    [|reflexivity].
  destruct (style_of s el); cbn in *; now subst.
Qed.

(** The callback never registers a target: the observed set only shrinks. *)
Lemma on_entry_observed (s : State) (entry : Entry) :
  observed (on_entry s entry) ⊆ observed s.
Proof.
  unfold on_entry. destruct (isIntersecting entry); cbn [observed unobserve animateElement];
    [apply subseteq_difference_l|]; reflexivity.
Qed.

Lemma on_entry_reveals (s : State) (entry : Entry) :
  isIntersecting entry = true ->
  revealed (on_entry s entry) (target entry)
  /\ target entry ∉ observed (on_entry s entry).
Proof.
  intros Hi. split.
  - unfold revealed. rewrite style_of_on_entry, Hi.
    rewrite bool_decide_eq_true_2 by reflexivity. now cbn.
  - unfold on_entry. rewrite Hi. cbn [observed unobserve animateElement].
    apply not_elem_of_difference. right. now apply elem_of_singleton.
Qed.

Lemma callback_keeps_revealed (entries : list Entry) (s : State) (el : nat) :
  revealed s el ->
  style_of (callback entries s) el = style_of s el.
Proof.
  revert s; induction entries as [|e entries IH]; intros s Hr; [reflexivity|].
  unfold callback in *; cbn [fold_left].
  pose proof (on_entry_keeps_revealed s e el Hr) as E.
  rewrite IH; [exact E|].
  unfold revealed in *. now rewrite E.
Qed.

Lemma callback_observed (entries : list Entry) (s : State) :
  observed (callback entries s) ⊆ observed s.
Proof.
  revert s; induction entries as [|e entries IH]; intros s; [set_solver|].
  unfold callback in *; cbn [fold_left].
  etransitivity; [apply IH|apply on_entry_observed].
Qed.

Lemma callback_app (l1 l2 : list Entry) (s : State) :
  callback (l1 ++ l2) s = callback l2 (callback l1 s).
Proof. unfold callback. apply fold_left_app. Qed.

Lemma callback_reveals (entries : list Entry) (s : State) (entry : Entry) :
  In entry entries ->
  isIntersecting entry = true ->
  revealed (callback entries s) (target entry)
  /\ target entry ∉ observed (callback entries s).
Proof.
  intros Hin Hi.
  apply in_split in Hin as (l1 & l2 & ->).
  rewrite callback_app.
  change (callback (entry :: l2) (callback l1 s))
    with (callback l2 (on_entry (callback l1 s) entry)).
  destruct (on_entry_reveals (callback l1 s) entry Hi) as [Hr Hu].
  split.
  - unfold revealed. rewrite callback_keeps_revealed by exact Hr. exact Hr.
  - intros Hobs. apply Hu. eapply callback_observed, Hobs.
Qed.

Lemma deliveries_keep_revealed (batches : list (list Entry)) (s : State)
      (el : nat) :
  revealed s el ->
  style_of (deliveries batches s) el = style_of s el.
Proof.
  revert s; induction batches as [|b batches IH]; intros s Hr; [reflexivity|].
  unfold deliveries in *; cbn [fold_left].
  pose proof (callback_keeps_revealed b s el Hr) as E.
  rewrite IH; [exact E|].
  unfold revealed in *. now rewrite E.
Qed.

Lemma deliveries_observed (batches : list (list Entry)) (s : State) :
  observed (deliveries batches s) ⊆ observed s.
Proof.
  revert s; induction batches as [|b batches IH]; intros s; [set_solver|].
  unfold deliveries in *; cbn [fold_left].
  etransitivity; [apply IH|apply callback_observed].
Qed.

Lemma revealed_not_hidden (s : State) (el : nat) :
  revealed s el -> ~ hidden s el.
Proof. intros [Ho _] [Hh _]. rewrite Ho in Hh. discriminate. Qed.

End Reveal.

(** C6. Once a batch of intersection entries holds an entry for a reveal
    target with [isIntersecting], the target is in the revealed state
    (opacity 1, translateY(0)) and no longer observed when the callback
    returns; whatever batches of entries are delivered afterwards, for any
    targets and with any flags, its inline style stays exactly as it was,
    so it stays revealed, is never hidden again and is never observed
    again. *)
Theorem revealed_once_and_for_all
        (s : AnimationManager.State) (entries : list AnimationManager.Entry)
        (entry : AnimationManager.Entry) :
  In entry entries ->
  AnimationManager.isIntersecting entry = true ->
  let el := AnimationManager.target entry in
  let s1 := AnimationManager.callback entries s in
  AnimationManager.revealed s1 el
  /\ (el ∉ AnimationManager.observed s1)
  /\ forall later : list (list AnimationManager.Entry),
       let s2 := AnimationManager.deliveries later s1 in
       AnimationManager.style_of s2 el = AnimationManager.style_of s1 el
       /\ AnimationManager.revealed s2 el
       /\ ~ AnimationManager.hidden s2 el
       /\ (el ∉ AnimationManager.observed s2).
Proof.
  intros Hin Hi el s1.
  destruct (callback_reveals entries s entry Hin Hi) as [Hr Hu].
  fold el s1 in Hr, Hu.
  split; [exact Hr|]. split; [exact Hu|].
  intros later s2.
  pose proof (deliveries_keep_revealed later s1 el Hr) as E. fold s2 in E.
  assert (Hr2 : AnimationManager.revealed s2 el)
    by (unfold AnimationManager.revealed in *; now rewrite E).
  split; [exact E|]. split; [exact Hr2|].
  split; [now apply revealed_not_hidden|].
  intros Hobs. apply Hu. eapply deliveries_observed, Hobs.
Qed.

Lemma revealed_once_and_for_all_witness :
  let s := AnimationManager.setupIntersectionObserver
             [7%nat; 9%nat] (AnimationManager.mkState ∅ ∅) in
  let entries := [AnimationManager.mkEntry 9 false;
                  AnimationManager.mkEntry 7 true] in
  AnimationManager.hidden s 7
  /\ AnimationManager.revealed (AnimationManager.callback entries s) 7.
Proof.
  intros s entries. split.
  - split; reflexivity.
  - apply (revealed_once_and_for_all s entries (AnimationManager.mkEntry 7 true)).
    + right; left; reflexivity.
    + reflexivity.
Defined.

(** What [setupIntersectionObserver] leaves behind: every matched element
    is hidden and observed. *)
Section RevealSetup.

Import AnimationManager.

Lemma prepare_other (s : State) (el' : nat) (index : nat) (el : nat) :
  el' <> el ->
  style_of (prepare s (el', index)) el = style_of s el.
Proof.
  intros Hne. unfold prepare, style_of, observe; cbn [styles].
  now rewrite lookup_insert_ne.
Qed.

Lemma prepare_observed (s : State) (p : nat * nat) :
  observed s ⊆ observed (prepare s p).
Proof.
  destruct p as [el' index]. unfold prepare, observe; cbn [observed].
  apply union_subseteq_r.
Qed.

Lemma prepare_all_other (pairs : list (nat * nat)) (s : State) (el : nat) :
  ~ In el (List.map fst pairs) ->
  style_of (fold_left prepare pairs s) el = style_of s el
  /\ observed s ⊆ observed (fold_left prepare pairs s).
Proof.
  revert s; induction pairs as [|[el' index] pairs IH]; intros s Hnin;
    cbn [fold_left]; [split; reflexivity|].
  cbn [List.map fst In] in Hnin.
  destruct (IH (prepare s (el', index))) as [E Hsub]; [tauto|].
  split.
  - rewrite E. apply prepare_other. tauto.
  - etransitivity; [apply prepare_observed|exact Hsub].
Qed.

Lemma prepare_all_hides (l : list nat) (k : nat) (s : State) (el : nat) :
  NoDup l -> In el l ->
  let s' := fold_left prepare (List.combine l (List.seq k (List.length l))) s in
  hidden s' el /\ el ∈ observed s'.
Proof.
  intros Hnd; revert k s.
  induction Hnd as [|a l Ha Hnd IH]; intros k s Hin; [destruct Hin|].
  cbn [List.length List.seq List.combine fold_left].
  destruct (Nat.eq_dec a el) as [->|Hne].
  - assert (Hnin : ~ In el (List.map fst (List.combine l (List.seq (S k) (List.length l))))).
    { intros Hin'. apply Ha. apply list_elem_of_In.
      apply in_map_iff in Hin' as ([x y] & <- & Hxy).
      apply in_combine_l in Hxy. exact Hxy. }
    destruct (prepare_all_other _ (prepare s (el, k)) el Hnin) as [E Hsub].
    split.
    + unfold hidden. rewrite E.
      unfold prepare, style_of, observe; cbn [styles].
      rewrite lookup_insert_eq. split; reflexivity.
    + apply Hsub. unfold prepare, observe; cbn [observed].
      apply elem_of_union_l. now apply elem_of_singleton.
  - apply IH. destruct Hin as [E|Hin]; [congruence|exact Hin].
Qed.

Lemma setup_hides_and_observes (animatedElements : list nat) (s : State)
      (el : nat) :
  NoDup animatedElements -> In el animatedElements ->
  hidden (setupIntersectionObserver animatedElements s) el
  /\ el ∈ observed (setupIntersectionObserver animatedElements s).
Proof. intros Hnd Hin. now apply prepare_all_hides. Qed.

End RevealSetup.

(** ** CountdownTimer *)

Section Countdown.

Import CountdownTimer.

Lemma bind_Normal {A B} (m : M A) (f : A -> M B) (s s' : State) (a : A) :
  m s = Normal a s' -> (m ≫= f) s = f a s'.
Proof. intros E. unfold mbind, M_bind. now rewrite E. Qed.

(** *** updateElements *)

Lemma update_field_spec (entry : string * Z) (s : State) :
  update_field entry s
  = Normal tt
      (if needs_update s entry then
         set_timeouts (timeouts s ++ [rendered entry])
           (set_elements
              (alter (fun el => mkField (textContent el) "scale(1.1)" "#f5576c")
                     (fst entry) (elements s)) s)
       else s).
Proof.
  destruct entry as [key value].
  unfold update_field, needs_update, rendered; cbn [fst snd].
  unfold mbind, M_bind, get.
  destruct (elements s !! key) as [el|]; [|reflexivity].
  destruct (negb _); reflexivity.
Qed.

Lemma same_frame_refl (s : State) : same_frame s s.
Proof. now split. Qed.

Lemma same_frame_trans (s1 s2 s3 : State) :
  same_frame s1 s2 -> same_frame s2 s3 -> same_frame s1 s3.
Proof. intros [] []; split; congruence. Qed.

Lemma shown_alter_style (s : State) (key k : string) (tr co : string) :
  textContent <$>
    alter (fun el => mkField (textContent el) tr co) key (elements s) !! k
  = shown s k.
Proof.
  unfold shown. destruct (decide (key = k)) as [->|Hne].
  - rewrite lookup_alter_eq. now destruct (elements s !! k).
  - now rewrite lookup_alter_ne.
Qed.

Lemma needs_update_ext (s s' : State) (entry : string * Z) :
  (forall k, shown s' k = shown s k) ->
  needs_update s' entry = needs_update s entry.
Proof.
  intros E. specialize (E (fst entry)). unfold shown, needs_update in *.
  destruct (elements s' !! fst entry), (elements s !! fst entry);
    cbn in E; congruence.
Qed.

(** [updateElements] returns; it leaves every text as it is, schedules
    one write per field whose text differs from the rendered value, in the
    order of the keys, and restyles those fields and no other. *)
Lemma forEach_update_field (entries : list (string * Z)) (s : State) :
  exists s',
    forEach entries update_field s = Normal tt s'
    /\ same_frame s s'
    /\ (forall k, shown s' k = shown s k)
    /\ timeouts s'
       = timeouts s ++ List.map rendered (List.filter (needs_update s) entries)
    /\ (forall k, (forall v, In (k, v) entries -> needs_update s (k, v) = false) ->
                  elements s' !! k = elements s !! k).
Proof.
  revert s; induction entries as [|entry entries IH]; intros s.
  - exists s. cbn. rewrite app_nil_r. repeat split; auto.
  - cbn [forEach].
    pose proof (update_field_spec entry s) as E1.
    set (s1 := if needs_update s entry then _ else s) in E1.
    destruct (IH s1) as (s' & E & Hfr & Hsh & Hto & Hel).
    exists s'.
    rewrite (bind_Normal _ _ _ _ _ E1).
    assert (Hsh1 : forall k, shown s1 k = shown s k).
    { intros k. subst s1. destruct (needs_update s entry); [|reflexivity].
      apply shown_alter_style. }
    assert (Hfr1 : same_frame s s1).
    { subst s1. destruct (needs_update s entry); now split. }
    split; [exact E|].
    split; [eapply same_frame_trans; eassumption|].
    split; [intros k; now rewrite Hsh, Hsh1|].
    split.
    + rewrite Hto.
      rewrite (filter_ext _ _ (fun e => needs_update_ext s s1 e Hsh1)).
      cbn [List.filter]. subst s1.
      destruct (needs_update s entry); cbn [List.map timeouts set_timeouts];
        [now rewrite <- app_assoc|reflexivity].
    + intros k Hk. rewrite Hel.
      * subst s1. destruct entry as [key value].
        destruct (needs_update s (key, value)) eqn:En; [|reflexivity].
        cbn [elements set_timeouts set_elements fst].
        destruct (decide (key = k)) as [->|Hne];
          [|now rewrite lookup_alter_ne].
        rewrite Hk in En; [discriminate|now left].
      * intros v Hin. rewrite (needs_update_ext s s1 _ Hsh1).
        apply Hk. now right.
Qed.

Lemma updateElements_spec (timeUnits : TimeUnits) (s : State) :
  exists s',
    updateElements timeUnits s = Normal tt s'
    /\ same_frame s s'
    /\ (forall k, shown s' k = shown s k)
    /\ timeouts s'
       = timeouts s
         ++ List.map rendered
              (List.filter (needs_update s) (Object_entries timeUnits))
    /\ (forall k,
          (forall v, In (k, v) (Object_entries timeUnits) ->
                     needs_update s (k, v) = false) ->
          elements s' !! k = elements s !! k).
Proof. apply forEach_update_field. Qed.

(** *** handleExpiration and addPulseEffect *)

Lemma handleExpiration_spec (c : Container) (s : State) :
  container s = Some c ->
  handleExpiration s = Normal tt (expire c s).
Proof.
  intros Hc. unfold handleExpiration, expire, mbind, M_bind, get.
  unfold clearInterval, modify, the_container, appendChild_head.
  destruct (interval s); cbn; rewrite Hc; reflexivity.
Qed.

Lemma addPulseEffect_spec (timeUnits : TimeUnits) (c : Container) (s : State) :
  container s = Some c ->
  addPulseEffect timeUnits s
  = Normal tt
      (if urgent_test timeUnits then
         set_container
           (Some (mkContainer ({["urgent"]} ∪ classList c) (innerHTML c))) s
       else s).
Proof.
  intros Hc. unfold addPulseEffect.
  destruct (urgent_test timeUnits); [|reflexivity].
  unfold mbind, M_bind, the_container, modify. now rewrite Hc.
Qed.

(** *** updateDisplay *)

Lemma updateDisplay_expired (now : Z) (s : State) :
  endDate s - now < 0 -> updateDisplay now s = handleExpiration s.
Proof.
  intros Hd. unfold updateDisplay, mbind at 1, M_bind at 1, get.
  destruct (Z.ltb_spec (endDate s - now) 0); [reflexivity|lia].
Qed.

Lemma updateDisplay_running (now : Z) (c : Container) (s : State) :
  container s = Some c ->
  0 <= endDate s - now ->
  let timeUnits := calculateTimeUnits (endDate s - now) in
  exists s1,
    updateElements timeUnits s = Normal tt s1
    /\ updateDisplay now s
       = Normal tt
           (if urgent_test timeUnits then
              set_container
                (Some (mkContainer ({["urgent"]} ∪ classList c) (innerHTML c)))
                s1
            else s1).
Proof.
  intros Hc Hd timeUnits.
  destruct (updateElements_spec timeUnits s) as (s1 & E & Hfr & _).
  exists s1. split; [exact E|].
  unfold updateDisplay, mbind at 1, M_bind at 1, get.
  destruct (Z.ltb_spec (endDate s - now) 0); [lia|].
  fold timeUnits. rewrite (bind_Normal _ _ _ _ _ E).
  apply addPulseEffect_spec. now rewrite (frame_container _ _ Hfr).
Qed.

(** The running branch leaves the timers, the content of the container and
    the style sheets alone. *)
Lemma updateDisplay_running_frame (now : Z) (c : Container) (s : State) :
  container s = Some c ->
  0 <= endDate s - now ->
  exists s' c',
    updateDisplay now s = Normal tt s'
    /\ container s' = Some c'
    /\ innerHTML c' = innerHTML c
    /\ classList c ⊆ classList c'
    /\ (urgent_test (calculateTimeUnits (endDate s - now)) = true ->
        "urgent" ∈ classList c')
    /\ head s' = head s
    /\ intervals s' = intervals s
    /\ interval s' = interval s
    /\ endDate s' = endDate s
    /\ next_id s' = next_id s
    /\ elements s' = elements (state_of (updateElements
                        (calculateTimeUnits (endDate s - now)) s))
    /\ timeouts s' = timeouts (state_of (updateElements
                        (calculateTimeUnits (endDate s - now)) s)).
Proof.
  intros Hc Hd.
  destruct (updateDisplay_running now c s Hc Hd) as (s1 & E1 & E).
  cbv zeta in E1, E.
  destruct (updateElements_spec (calculateTimeUnits (endDate s - now)) s)
    as (s1' & E1' & Hfr & _).
  assert (s1' = s1) by congruence. subst s1'.
  destruct Hfr. rewrite E1. cbn [state_of].
  destruct (urgent_test _).
  - eexists _, _. split; [exact E|]. cbn.
    repeat split; auto.
    + apply union_subseteq_r.
    + intros _. apply elem_of_union_l. now apply elem_of_singleton.
  - exists s1, c. split; [exact E|].
    repeat split; auto; try congruence.
Qed.

Lemma expiry_renders_expire (c : Container) (s : State) :
  expiry_renders (expire c s) = S (expiry_renders s).
Proof.
  unfold expiry_renders, expire; cbn [head set_head].
  rewrite List.filter_app, List.length_app; cbn.
  destruct (interval s); cbn; lia.
Qed.

Lemma expire_neq (c : Container) (s s' : State) :
  head s' = head s -> expire c s <> s'.
Proof.
  intros Hh E. apply (f_equal expiry_renders) in E.
  rewrite expiry_renders_expire in E.
  unfold expiry_renders in E at 2. rewrite Hh in E.
  fold (expiry_renders s) in E. lia.
Qed.

(** *** Timeouts *)

Lemma flush_nil (s : State) : timeouts s = [] -> flush s = s.
Proof. intros E. unfold flush. now rewrite E. Qed.

Lemma flush_cons (s : State) (key newValue : string)
      (rest : list (string * string)) :
  timeouts s = (key, newValue) :: rest ->
  flush s = flush (write_text key newValue (set_timeouts rest s)).
Proof.
  intros E. unfold flush at 1. rewrite E.
  cbn [List.length List.repeat run fold_left step]. rewrite E.
  reflexivity.
Qed.

Lemma shown_write_text (s : State) (key newValue k : string) :
  shown (write_text key newValue s) k
  = if decide (key = k)
    then (fun _ => newValue) <$> elements s !! k
    else shown s k.
Proof.
  unfold shown, write_text; cbn [elements set_elements].
  destruct (decide (key = k)) as [->|Hne].
  - rewrite lookup_alter_eq. now destruct (elements s !! k).
  - now rewrite lookup_alter_ne.
Qed.

(** Once the pending writes, all of the same text [v], have run, a field
    that showed [v] or had a write pending shows [v]. *)
Lemma flush_shows (v : string) (pend : list (string * string)) :
  forall (s : State) (k : string),
    timeouts s = pend ->
    Forall (fun p => snd p = v) pend ->
    shown s k = Some v
    \/ (is_Some (elements s !! k) /\ In k (List.map fst pend)) ->
    shown (flush s) k = Some v.
Proof.
  induction pend as [|[key v1] rest IH]; intros s k Ht Hall Hk.
  - rewrite flush_nil by exact Ht.
    destruct Hk as [Hk|[_ []]]. exact Hk.
  - rewrite (flush_cons s key v1 rest Ht).
    apply Forall_cons in Hall as [Hv Hall]. cbn in Hv. subst v1.
    apply IH; [reflexivity|exact Hall|].
    rewrite shown_write_text.
    change (elements (write_text key v (set_timeouts rest s)))
      with (alter (fun _ => mkField v "scale(1)" "") key (elements s)).
    change (elements (set_timeouts rest s)) with (elements s).
    change (shown (set_timeouts rest s) k) with (shown s k).
    destruct (decide (key = k)) as [->|Hne].
    + left. destruct Hk as [Hk|[[el Hel] _]].
      * unfold shown in Hk.
        destruct (elements s !! k); [reflexivity|discriminate].
      * now rewrite Hel.
    + destruct Hk as [Hk|[Hel Hin]]; [now left|right].
      rewrite lookup_alter_ne by exact Hne.
      split; [exact Hel|].
      destruct Hin as [E|Hin]; [cbn in E; congruence|exact Hin].
Qed.

End Countdown.

Section CountdownClaims.

Import CountdownTimer.

Lemma zero_renders_00 :
  List.map rendered (Object_entries (calculateTimeUnits 0))
  = [("days", "00"); ("hours", "00"); ("minutes", "00"); ("seconds", "00")].
Proof. reflexivity. Qed.

(** C3. A tick performs the Expired processing exactly when deadline minus
    current time is negative.  That processing clears the recurring timer
    and replaces the content of the container.  A tick with a remainder
    of zero or more leaves the timer registered and the content in place;
    when the remainder is exactly 0 the four fields are rendered as 00, so
    that once the scheduled writes have run every field element that
    exists shows 00. *)
Theorem expired_iff_negative_remainder (s : State) (c : Container) (now : Z) :
  container s = Some c ->
  (endDate s - now < 0 <-> updateDisplay now s = handleExpiration s)
  /\ (handleExpiration s = Normal tt (expire c s)
      /\ innerHTML <$> container (expire c s) = Some ExpiredMessage
      /\ (forall id, interval s = Some id -> id ∉ intervals (expire c s)))
  /\ (0 <= endDate s - now ->
      exists s' c',
        updateDisplay now s = Normal tt s'
        /\ intervals s' = intervals s
        /\ container s' = Some c' /\ innerHTML c' = innerHTML c
        /\ head s' = head s)
  /\ (endDate s - now = 0 ->
      List.map rendered (Object_entries (calculateTimeUnits (endDate s - now)))
      = [("days", "00"); ("hours", "00"); ("minutes", "00"); ("seconds", "00")]
      /\ (timeouts s = [] ->
          forall key, In key ["days"; "hours"; "minutes"; "seconds"] ->
            is_Some (elements s !! key) ->
            shown (flush (state_of (updateDisplay now s))) key = Some "00")).
Proof.
  intros Hc.
  assert (Hrun : 0 <= endDate s - now ->
                 exists s' c',
                   updateDisplay now s = Normal tt s'
                   /\ intervals s' = intervals s
                   /\ container s' = Some c' /\ innerHTML c' = innerHTML c
                   /\ head s' = head s).
  { intros Hd.
    destruct (updateDisplay_running_frame now c s Hc Hd)
      as (s' & c' & E & Hc' & Hi & _ & _ & Hh & Hiv & _).
    exists s', c'. auto. }
  split; [|split; [|split; [exact Hrun|]]].
  - split; [apply updateDisplay_expired|].
    intros E. destruct (Z.lt_ge_cases (endDate s - now) 0) as [|Hd]; [assumption|].
    exfalso. destruct (Hrun Hd) as (s' & c' & E' & _ & _ & _ & Hh).
    rewrite E', (handleExpiration_spec c s Hc) in E.
    injection E as E. symmetry in E. revert E. now apply expire_neq.
  - split; [now apply handleExpiration_spec|]. split; [reflexivity|].
    intros id Hid. unfold expire. rewrite Hid. cbn.
    apply not_elem_of_difference. right. now apply elem_of_singleton.
  - intros Hz. rewrite Hz. split; [exact zero_renders_00|].
    intros Hto key Hkey Hel.
    assert (Hd : 0 <= endDate s - now) by lia.
    destruct (updateDisplay_running_frame now c s Hc Hd)
      as (s' & c' & E & _ & _ & _ & _ & _ & _ & _ & _ & _ & Hels & Htos).
    rewrite E; cbn [state_of]. rewrite Hz in Hels, Htos.
    destruct (updateElements_spec (calculateTimeUnits 0) s)
      as (s1 & E1 & _ & Hsh & Hto1 & _).
    rewrite E1 in Hels, Htos; cbn [state_of] in Hels, Htos.
    rewrite Hto in Hto1; cbn [app] in Hto1.
    assert (Hsh' : shown s' key = shown s key)
      by (unfold shown; rewrite Hels; apply Hsh).
    apply (flush_shows "00" (timeouts s')); [reflexivity| |].
    + rewrite Htos, Hto1. apply List.Forall_forall. intros p Hp.
      apply in_map_iff in Hp as (e & <- & He).
      apply filter_In in He as [He _].
      cbn in He. intuition (subst; reflexivity).
    + destruct (needs_update s (key, 0)) eqn:En.
      * right. split.
        { destruct Hel as [el Hel]. unfold shown in Hsh'.
          rewrite Hel in Hsh'.
          destruct (elements s' !! key); [eauto|discriminate]. }
        rewrite Htos, Hto1, List.map_map. apply in_map_iff.
        exists (key, 0). split; [reflexivity|].
        apply filter_In. split; [|exact En].
        cbn in Hkey |- *. intuition (subst; auto).
      * left. rewrite Hsh'. unfold needs_update, shown in *. cbn [fst snd] in En.
        destruct Hel as [el Hel]. rewrite Hel in En |- *. cbn.
        apply negb_false_iff, String.eqb_eq in En. now rewrite En.
Qed.

Lemma expired_iff_negative_remainder_witness :
  container sample = Some sample_container
  /\ shown sample "seconds" = Some "01"
  /\ shown (flush (state_of (updateDisplay 1000 sample))) "seconds" = Some "00".
Proof.
  split; [reflexivity|]. split; [reflexivity|].
  destruct (expired_iff_negative_remainder sample sample_container 1000 eq_refl)
    as (_ & _ & _ & Hzero).
  destruct (Hzero eq_refl) as [_ Hshown].
  apply Hshown.
  - reflexivity.
  - right; right; right; left; reflexivity.
  - exists (mkField "01" "" ""). reflexivity.
Defined.

(** *** After the expiry *)

Lemma set_timers_id (s : State) :
  set_timers (intervals s) (next_id s) s = s.
Proof. now destruct s. Qed.

(** Clearing a timer that is not registered changes nothing. *)
Lemma clearInterval_unregistered (s : State) (id : nat) :
  id ∉ intervals s -> clearInterval (Some id) s = Normal tt s.
Proof.
  intros Hid. unfold clearInterval, modify.
  replace (intervals s ∖ {[id]}) with (intervals s).
  - now rewrite set_timers_id.
  - symmetry. apply difference_disjoint_L. now apply disjoint_singleton_r.
Qed.

Lemma step_timeout_frame (s : State) : same_frame s (step s TimeoutFires).
Proof.
  cbn [step]. destruct (timeouts s) as [|[key newValue] rest]; now split.
Qed.

Lemma run_dead_timer (id : nat) (evs : list Event) (s : State) :
  id ∉ intervals s ->
  Forall (of_timer id) evs ->
  same_frame s (run evs s).
Proof.
  intros Hid Hevs; revert s Hid.
  induction Hevs as [|ev evs Hev _ IH]; intros s Hid; [apply same_frame_refl|].
  unfold run in *; cbn [fold_left].
  assert (Hfr : same_frame s (step s ev)).
  { destruct ev as [id' now|]; [|apply step_timeout_frame].
    cbn in Hev; subst id'. cbn [step].
    destruct (decide (id ∈ intervals s)); [contradiction|apply same_frame_refl]. }
  eapply same_frame_trans; [exact Hfr|].
  apply IH. now rewrite (frame_intervals _ _ Hfr).
Qed.

Lemma run_dead_ticks (id : nat) (nows : list Z) (s : State) :
  id ∉ intervals s ->
  run (List.map (IntervalFires id) nows) s = s.
Proof.
  intros Hid. induction nows as [|now nows IH]; [reflexivity|].
  unfold run in *; cbn [List.map fold_left step].
  destruct (decide (id ∈ intervals s)); [contradiction|exact IH].
Qed.

Lemma handleExpiration_again (n : nat) (s : State) :
  is_Some (container s) ->
  is_Some (container (Nat.iter n (fun s => state_of (handleExpiration s)) s))
  /\ expiry_renders (Nat.iter n (fun s => state_of (handleExpiration s)) s)
     = (n + expiry_renders s)%nat.
Proof.
  intros Hc. induction n as [|n [[c' Hc'] IH]]; [now split|].
  rewrite !Nat.iter_succ, (handleExpiration_spec c' _ Hc'); cbn [state_of].
  split; [now eexists|].
  rewrite expiry_renders_expire, IH. lia.
Qed.

(** C4, as the code has it.  When a tick of the registered recurring timer
    finds the remainder negative, the expiry render is performed once and
    the timer is cleared, so the browser calls the tick no more: however
    many further timer events arrive, the state stays as it is, and the
    timers, the container and the style sheets stay as they are also while
    pending field writes run.  Clearing the timer a second time changes
    nothing.  [handleExpiration] itself has no guard: each further direct
    call performs the render again and appends one more style sheet. *)
Theorem expiry_render_once_per_timer
        (s : State) (c : Container) (id : nat) (now : Z) :
  container s = Some c ->
  interval s = Some id ->
  id ∈ intervals s ->
  endDate s - now < 0 ->
  let s1 := step s (IntervalFires id now) in
  s1 = expire c s
  /\ expiry_renders s1 = S (expiry_renders s)
  /\ (id ∉ intervals s1)
  /\ (forall nows, run (List.map (IntervalFires id) nows) s1 = s1)
  /\ (forall evs, Forall (of_timer id) evs -> same_frame s1 (run evs s1))
  /\ clearInterval (interval s1) s1 = Normal tt s1
  /\ (forall n,
        expiry_renders (Nat.iter n (fun s => state_of (handleExpiration s)) s1)
        = (n + expiry_renders s1)%nat).
Proof.
  intros Hc Hi Hreg Hd s1.
  assert (E : s1 = expire c s).
  { subst s1. cbn [step]. destruct (decide (id ∈ intervals s)); [|contradiction].
    rewrite updateDisplay_expired by exact Hd.
    now rewrite (handleExpiration_spec c s Hc). }
  assert (Hdead : id ∉ intervals s1).
  { rewrite E. unfold expire. rewrite Hi. cbn.
    apply not_elem_of_difference. right. now apply elem_of_singleton. }
  assert (Hi1 : interval s1 = Some id).
  { rewrite E. unfold expire. rewrite Hi. exact Hi. }
  split; [exact E|].
  split; [rewrite E; apply expiry_renders_expire|].
  split; [exact Hdead|].
  split; [intros nows; now apply run_dead_ticks|].
  split; [intros evs Hevs; now apply (run_dead_timer id)|].
  split; [rewrite Hi1; now apply clearInterval_unregistered|].
  intros n. apply handleExpiration_again. rewrite E. now eexists.
Qed.

Lemma expiry_render_once_per_timer_witness :
  let s1 := step sample (IntervalFires 1 2000) in
  expiry_renders sample = 0%nat
  /\ expiry_renders s1 = 1%nat
  /\ run (List.map (IntervalFires 1) [3000; 4000; 5000; 6000; 7000]) s1 = s1.
Proof.
  intros s1.
  destruct (expiry_render_once_per_timer sample sample_container 1 2000)
    as (_ & Hr & _ & Hrun & _).
  - reflexivity.
  - reflexivity.
  - vm_compute. reflexivity.
  - cbn; lia.
  - split; [reflexivity|]. split; [exact Hr|]. apply Hrun.
Defined.

(** C4, as stated, fails: processing one more tick after the expiry
    performs the render a second time, so the page changes again. *)
Lemma expired_processing_not_idempotent_counterexample :
  let s1 := state_of (updateDisplay 2000 sample) in
  let s2 := state_of (updateDisplay 3000 s1) in
  expiry_renders s1 = 1%nat
  /\ expiry_renders s2 = 2%nat
  /\ head s2 = [UrgentPulse; ExpiredBounce; ExpiredBounce]
  /\ s2 <> s1.
Proof.
  intros s1 s2.
  assert (H1 : expiry_renders s1 = 1%nat) by reflexivity.
  assert (H2 : expiry_renders s2 = 2%nat) by reflexivity.
  split; [exact H1|]. split; [exact H2|]. split; [reflexivity|].
  intros E. rewrite E, H1 in H2. discriminate.
Qed.

(** *** Construction *)

(** C5. When the container element is absent at construction the
    constructor returns normally having only set the object's own fields:
    no timer is registered, nothing is scheduled, no field element and no
    style sheet is touched. *)
Theorem constructor_without_container (s : State) (t0 t1 : Z) :
  container s = None ->
  exists s',
    constructor t0 t1 s = Normal tt s'
    /\ s' = set_interval None
              (set_endDate (t0 + CONFIG.countdownDays * 24 * 60 * 60 * 1000) s)
    /\ interval s' = None
    /\ intervals s' = intervals s
    /\ next_id s' = next_id s
    /\ timeouts s' = timeouts s
    /\ elements s' = elements s
    /\ container s' = None
    /\ head s' = head s.
Proof.
  intros Hc. eexists. split.
  - unfold constructor, init, mbind, M_bind, modify, get; cbn.
    rewrite Hc. reflexivity.
  - repeat split; auto.
Qed.

Lemma constructor_without_container_witness :
  container sample_without_container = None
  /\ exists s',
       constructor 5000 5001 sample_without_container = Normal tt s'
       /\ intervals s' = ∅
       /\ timeouts s' = [].
Proof.
  split; [reflexivity|].
  destruct (constructor_without_container sample_without_container 5000 5001
              eq_refl)
    as (s' & E & _ & _ & Hi & _ & Ht & _).
  exists s'. auto.
Defined.

(** With the container present the constructor does start the timer. *)
Lemma constructor_with_container (s : State) (c : Container) (t0 t1 : Z) :
  container s = Some c ->
  t1 <= t0 + CONFIG.countdownDays * 24 * 60 * 60 * 1000 ->
  exists s',
    constructor t0 t1 s = Normal tt s'
    /\ interval s' = Some (next_id s)
    /\ intervals s' = {[next_id s]} ∪ intervals s
    /\ head s' = head s ++ [UrgentPulse].
Proof.
  intros Hc Ht.
  set (s0 := set_interval None
               (set_endDate (t0 + CONFIG.countdownDays * 24 * 60 * 60 * 1000) s)).
  destruct (updateDisplay_running_frame t1 c s0)
    as (s1 & c1 & E & Hc1 & _ & _ & _ & Hh & Hiv & _ & _ & Hn & _);
    [exact Hc|cbn; lia|].
  eexists. split.
  - unfold constructor, mbind at 1 2, M_bind at 1 2, modify. fold s0.
    unfold init, mbind at 1, M_bind at 1, get.
    change (container s0) with (container s). rewrite Hc.
    unfold startCountdown, mbind at 1 2, M_bind at 1 2.
    rewrite E. reflexivity.
  - cbn. rewrite Hh, Hiv, Hn. repeat split.
Qed.

(** Should the clock already be past the deadline when the constructor
    makes its first update, that update expires with no timer to clear;
    the timer is registered afterwards and its first tick expires again. *)
Example expiry_at_construction :
  let t0 := 0 in
  let t1 := CONFIG.countdownDays * 24 * 60 * 60 * 1000 + 1 in
  let s0 := set_container (Some sample_container) sample_without_container in
  let s1 := state_of (constructor t0 t1 s0) in
  let s2 := step s1 (IntervalFires 1 (t1 + 1000)) in
  expiry_renders s1 = 1%nat /\ interval s1 = Some 1%nat
  /\ expiry_renders s2 = 2%nat.
Proof. repeat split; reflexivity. Qed.

(** *** The urgent mode *)

Lemma urgent_updateDisplay (now : Z) (s : State) :
  urgent s -> urgent (state_of (updateDisplay now s)).
Proof.
  intros (c & Hc & Hu).
  destruct (Z.lt_ge_cases (endDate s - now) 0) as [Hd|Hd].
  - rewrite updateDisplay_expired, (handleExpiration_spec c s Hc) by exact Hd.
    cbn [state_of]. eexists. split; [reflexivity|exact Hu].
  - destruct (updateDisplay_running_frame now c s Hc Hd)
      as (s' & c' & E & Hc' & _ & Hsub & _).
    rewrite E; cbn [state_of]. exists c'. split; [exact Hc'|].
    now apply Hsub.
Qed.

Lemma urgent_step (s : State) (ev : Event) : urgent s -> urgent (step s ev).
Proof.
  intros Hu. destruct ev as [id now|]; cbn [step].
  - destruct (decide (id ∈ intervals s)); [now apply urgent_updateDisplay|exact Hu].
  - destruct (timeouts s) as [|[key newValue] rest]; exact Hu.
Qed.

Lemma urgent_run (evs : list Event) (s : State) : urgent s -> urgent (run evs s).
Proof.
  revert s; induction evs as [|ev evs IH]; intros s Hu; [exact Hu|].
  unfold run in *; cbn [fold_left]. now apply IH, urgent_step.
Qed.

Lemma urgent_ticks (nows : list Z) (s : State) :
  urgent s ->
  urgent (fold_left (fun s now => state_of (updateDisplay now s)) nows s).
Proof.
  revert s; induction nows as [|now nows IH]; intros s Hu; [exact Hu|].
  cbn [fold_left]. now apply IH, urgent_updateDisplay.
Qed.

(** C7. A tick with a remainder of zero or more whose whole days are 0 and
    whose hours are below 24 leaves the class [urgent] on the container,
    and nothing that follows removes it: not the events the browser
    delivers afterwards, and not any later tick, whatever time it reads. *)
Theorem urgent_set_and_kept (s : State) (c : Container) (now : Z) :
  container s = Some c ->
  0 <= endDate s - now ->
  days (calculateTimeUnits (endDate s - now)) = 0 ->
  hours (calculateTimeUnits (endDate s - now)) < 24 ->
  let s1 := state_of (updateDisplay now s) in
  urgent s1
  /\ (forall evs, urgent (run evs s1))
  /\ (forall nows,
        urgent (fold_left (fun s now => state_of (updateDisplay now s)) nows s1)).
Proof.
  intros Hc Hd Hdays Hhours s1.
  assert (Hu : urgent s1).
  { subst s1.
    destruct (updateDisplay_running_frame now c s Hc Hd)
      as (s' & c' & E & Hc' & _ & _ & Hurg & _).
    rewrite E; cbn [state_of]. exists c'. split; [exact Hc'|].
    apply Hurg. unfold urgent_test. rewrite Hdays.
    apply andb_true_iff. split; [reflexivity|]. apply Z.ltb_lt, Hhours. }
  split; [exact Hu|].
  split; [intros evs; now apply urgent_run|intros nows; now apply urgent_ticks].
Qed.

Lemma urgent_set_and_kept_witness :
  ~ urgent sample
  /\ urgent (run [TimeoutFires; IntervalFires 1 1000; IntervalFires 1 2000]
               (state_of (updateDisplay 0 sample))).
Proof.
  split.
  - intros (c & Hc & Hu). injection Hc as <-.
    cbn in Hu. now apply not_elem_of_empty in Hu.
  - apply (urgent_set_and_kept sample sample_container 0).
    + reflexivity.
    + cbn; lia.
    + reflexivity.
    + reflexivity.
Defined.

(** *** Redundant updates *)

(** The fields and the pending writes a tick leaves behind are those of
    [updateElements] in the running branch, and untouched otherwise, also
    when the container is missing and the tick throws. *)
Lemma updateDisplay_fields (now : Z) (s : State) :
  let s' := state_of (updateDisplay now s) in
  (endDate s - now < 0 ->
   elements s' = elements s /\ timeouts s' = timeouts s)
  /\ (0 <= endDate s - now ->
      let s1 := state_of
                  (updateElements (calculateTimeUnits (endDate s - now)) s) in
      elements s' = elements s1 /\ timeouts s' = timeouts s1).
Proof.
  cbv zeta. split; intros Hd.
  - rewrite updateDisplay_expired by exact Hd.
    unfold handleExpiration, mbind, M_bind, get, clearInterval, modify,
      the_container, appendChild_head.
    destruct (interval s); cbn; destruct (container s); cbn; auto.
  - destruct (updateElements_spec (calculateTimeUnits (endDate s - now)) s)
      as (s1 & E & _).
    assert (E' : updateDisplay now s
                 = addPulseEffect (calculateTimeUnits (endDate s - now)) s1).
    { unfold updateDisplay, mbind at 1, M_bind at 1, get.
      destruct (Z.ltb_spec (endDate s - now) 0); [lia|].
      now rewrite (bind_Normal _ _ _ _ _ E). }
    rewrite E', E; cbn [state_of].
    unfold addPulseEffect.
    destruct (urgent_test _); [|auto].
    unfold mbind, M_bind, the_container, modify.
    destruct (container s1); cbn; auto.
Qed.

Lemma needs_update_cases (s : State) (key : string)
      (entries : list (string * Z)) :
  (forall v, In (key, v) entries -> needs_update s (key, v) = false)
  \/ (exists v, In (key, v) entries /\ needs_update s (key, v) = true).
Proof.
  induction entries as [|[k v] entries [IH|(v' & Hin & Hn)]].
  - left. intros v [].
  - destruct (decide (k = key)) as [->|Hne].
    + destruct (needs_update s (key, v)) eqn:En.
      * right. exists v. split; [now left|exact En].
      * left. intros v' [E|Hin]; [congruence|now apply IH].
    + left. intros v' [E|Hin]; [congruence|now apply IH].
  - right. exists v'. split; [now right|exact Hn].
Qed.

(** C8. On every tick, whatever the remainder: the text of a field element
    is not written by the tick itself; the element is restyled, or a write
    of its text is scheduled, only if the tick rendered a value for it
    whose zero-padded string differs from the text it shows; and when the
    rendered string equals the text, the element is left exactly as it was
    and no write is scheduled for it. *)
Theorem field_left_alone_unless_text_differs
        (s : State) (now : Z) (key : string) (el : Field) :
  elements s !! key = Some el ->
  let s' := state_of (updateDisplay now s) in
  let entries := Object_entries (calculateTimeUnits (endDate s - now)) in
  exists added,
    timeouts s' = timeouts s ++ added
    /\ shown s' key = Some (textContent el)
    /\ (elements s' !! key <> Some el \/ In key (List.map fst added) ->
        0 <= endDate s - now
        /\ exists value, In (key, value) entries
                         /\ utils.padZero value <> textContent el)
    /\ (forall value, In (key, value) entries ->
                      utils.padZero value = textContent el ->
                      elements s' !! key = Some el
                      /\ ~ In key (List.map fst added)).
Proof.
  intros Hel s' entries.
  destruct (updateDisplay_fields now s) as [Hexp Hrun]. fold s' in Hexp, Hrun.
  destruct (Z.lt_ge_cases (endDate s - now) 0) as [Hd|Hd].
  - destruct (Hexp Hd) as [Hels Hto].
    exists []. rewrite app_nil_r, Hels. unfold shown. rewrite Hels, Hel.
    split; [exact Hto|]. split; [reflexivity|].
    split; [intros [H|[]]; congruence|]. intros; split; auto.
  - destruct (Hrun Hd) as [Hels Hto]. cbv zeta in Hels, Hto.
    destruct (updateElements_spec (calculateTimeUnits (endDate s - now)) s)
      as (s1 & E & _ & Hsh & Hto1 & Hsame).
    rewrite E in Hels, Hto; cbn [state_of] in Hels, Hto.
    fold entries in Hto1, Hsame.
    exists (List.map rendered (List.filter (needs_update s) entries)).
    assert (Hadded : forall k,
               In k (List.map fst
                       (List.map rendered (List.filter (needs_update s) entries)))
               -> exists v, In (k, v) entries /\ needs_update s (k, v) = true).
    { intros k Hin. rewrite List.map_map in Hin.
      apply in_map_iff in Hin as ([k' v] & <- & Hin).
      apply filter_In in Hin. now exists v. }
    assert (Hdiff : forall v, needs_update s (key, v) = true ->
                              utils.padZero v <> textContent el).
    { intros v Hn Heq. unfold needs_update in Hn; cbn [fst snd] in Hn.
      rewrite Hel, Heq, String.eqb_refl in Hn. discriminate. }
    split; [now rewrite Hto|].
    split; [unfold shown in *; rewrite Hels, Hsh, Hel; reflexivity|].
    split.
    + intros Hch. split; [exact Hd|].
      destruct (needs_update_cases s key entries) as [Hno|(v & Hin & Hn)].
      * exfalso. destruct Hch as [Hch|Hch].
        -- apply Hch. rewrite Hels, Hsame; [exact Hel|exact Hno].
        -- destruct (Hadded key Hch) as (v & Hin & Hn).
           rewrite (Hno v Hin) in Hn. discriminate.
      * exists v. split; [exact Hin|now apply Hdiff].
    + intros value Hin Heq.
      destruct (needs_update_cases s key entries) as [Hno|(v & Hin' & Hn)].
      * split; [rewrite Hels, Hsame; [exact Hel|exact Hno]|].
        intros Hch. destruct (Hadded key Hch) as (v & Hin' & Hn).
        rewrite (Hno v Hin') in Hn. discriminate.
      * exfalso.
        assert (v = value); [|subst v; now apply (Hdiff value)].
        subst entries. cbn in Hin, Hin'.
        intuition congruence.
Qed.

Lemma field_left_alone_unless_text_differs_witness :
  elements sample !! "seconds" = Some (mkField "01" "" "")
  /\ elements (state_of (updateDisplay 0 sample)) !! "seconds"
     = Some (mkField "01" "" "").
Proof.
  split; [reflexivity|].
  destruct (field_left_alone_unless_text_differs
              sample 0 "seconds" (mkField "01" "" "") eq_refl)
    as (added & _ & _ & _ & Hsame).
  apply (Hsame 1).
  - right; right; right; left; reflexivity.
  - reflexivity.
Defined.

(** One second later the seconds differ: the element is restyled and the
    write of the new text is scheduled, the other three are left alone. *)
Example tick_on_changed_seconds :
  let s' := state_of (updateDisplay 1000 sample) in
  elements s' !! "seconds" = Some (mkField "01" "scale(1.1)" "#f5576c")
  /\ elements s' !! "minutes" = Some (mkField "00" "" "")
  /\ timeouts s' = [("seconds", "00")]
  /\ shown (flush s') "seconds" = Some "00".
Proof. repeat split; reflexivity. Qed.

End CountdownClaims.

(** * Further properties *)

(** ** utils.padZero *)

Section PadZero.


Lemma uint_of_string_zeros (k : nat) (s : string) (d : Decimal.uint) :
  NilEmpty.uint_of_string s = Some d ->
  exists d',
    NilEmpty.uint_of_string
      (String.append (string_of_list_ascii (List.repeat "0"%char k)) s)
    = Some d'
    /\ Z.of_uint d' = Z.of_uint d.
Proof.
  intros Hs. induction k as [|k (d' & E & Hv)]; [now exists d|].
  exists (Decimal.D0 d').
  change (NilEmpty.uint_of_string
            (String.append (string_of_list_ascii (List.repeat "0"%char (S k))) s))
    with (uint_of_char "0"
            (NilEmpty.uint_of_string
               (String.append (string_of_list_ascii (List.repeat "0"%char k)) s))).
  rewrite E. split; [reflexivity|exact Hv].
Qed.

Lemma int_of_digits (s : string) (d : Decimal.uint) :
  NilEmpty.uint_of_string s = Some d -> s <> "" ->
  NilZero.int_of_string s = Some (Decimal.Pos d).
Proof.
  destruct s as [|a s]; [congruence|]. intros H _. cbn.
  destruct (Ascii.eqb_spec a "-") as [->|_].
  - cbn in H. destruct (NilEmpty.uint_of_string s); discriminate.
  - cbn in H |- *. now rewrite H.
Qed.

Lemma String_of_digits (n : Z) :
  0 <= n ->
  exists d, NilEmpty.uint_of_string (utils.String_of n) = Some d
            /\ Z.of_uint d = n /\ utils.String_of n <> "".
Proof.
  intros Hn. unfold utils.String_of.
  destruct n as [|p|p]; [| |lia].
  - exists Decimal.zero. repeat split. discriminate.
  - cbn [Z.to_int NilZero.string_of_int].
    pose proof (DecimalPos.Unsigned.of_to p) as Hp.
    assert (Hnn : Pos.to_uint p <> Decimal.Nil).
    { intros E. rewrite E in Hp. discriminate. }
    exists (Pos.to_uint p).
    assert (E : NilZero.string_of_uint (Pos.to_uint p)
                = NilEmpty.string_of_uint (Pos.to_uint p))
      by (destruct (Pos.to_uint p); [congruence|reflexivity..]).
    rewrite E. split; [apply NilEmpty.usu|]. split.
    + unfold Z.of_uint. now rewrite Hp.
    + destruct (Pos.to_uint p); [congruence|discriminate..].
Qed.

End PadZero.


Lemma decimal_value_padZero (k : Z) :
  0 <= k -> utils.decimal_value (utils.padZero k) = Some k.
Proof.
  intros Hk.
  destruct (String_of_digits k Hk) as (d & Hd & Hv & Hne).
  unfold utils.padZero, utils.padStart.
  destruct (uint_of_string_zeros (2 - String.length (utils.String_of k))
              (utils.String_of k) d Hd) as (d' & E & Hv').
  unfold utils.decimal_value.
  rewrite (int_of_digits _ d' E).
  - cbn. now rewrite Hv', Hv.
  - destruct (List.repeat _ _); cbn; [exact Hne|discriminate].
Qed.

Lemma padZero_inj (n m : Z) :
  0 <= n -> 0 <= m -> utils.padZero m = utils.padZero n -> m = n.
Proof.
  intros Hn Hm E.
  pose proof (decimal_value_padZero m Hm) as Em.
  rewrite E, (decimal_value_padZero n Hn) in Em. congruence.
Qed.



(** ** CountdownTimer: construction, errors and the display *)

Section CountdownMore.

Import CountdownTimer.

(** With the container present a tick returns, whatever the clock reads;
    it keeps the container, only ever adds classes, registers no timer and
    leaves the deadline alone. *)
Lemma updateDisplay_returns (now : Z) (c : Container) (s : State) :
  container s = Some c ->
  exists s' c',
    updateDisplay now s = Normal tt s'
    /\ container s' = Some c'
    /\ classList c ⊆ classList c'
    /\ (innerHTML c = ExpiredMessage -> innerHTML c' = ExpiredMessage)
    /\ intervals s' ⊆ intervals s
    /\ next_id s' = next_id s
    /\ endDate s' = endDate s
    /\ interval s' = interval s.
Proof.
  intros Hc.
  destruct (Z.lt_ge_cases (endDate s - now) 0) as [Hd|Hd].
  - rewrite updateDisplay_expired, (handleExpiration_spec c s Hc) by exact Hd.
    eexists _, _. split; [reflexivity|]. unfold expire.
    destruct (interval s) eqn:Ei; cbn; rewrite ?Ei; repeat split; auto.
    apply subseteq_difference_l. reflexivity.
  - destruct (updateDisplay_running_frame now c s Hc Hd)
      as (s' & c' & E & Hc' & Hi & Hsub & _ & _ & Hiv & Hint & He & Hn & _).
    exists s', c'. rewrite Hiv. repeat split; auto. congruence.
Qed.

Lemma step_keeps_container (s : State) (c : Container) (ev : Event) :
  container s = Some c ->
  exists c', container (step s ev) = Some c'
             /\ classList c ⊆ classList c'
             /\ (innerHTML c = ExpiredMessage -> innerHTML c' = ExpiredMessage).
Proof.
  intros Hc. destruct ev as [id now|]; cbn [step].
  - destruct (decide (id ∈ intervals s)); [|now exists c].
    destruct (updateDisplay_returns now c s Hc)
      as (s' & c' & E & Hc' & Hsub & Hex & _).
    rewrite E. now exists c'.
  - destruct (timeouts s) as [|[key newValue] rest]; now exists c.
Qed.

Lemma run_keeps_container (evs : list Event) (s : State) (c : Container) :
  container s = Some c ->
  exists c', container (run evs s) = Some c'
             /\ classList c ⊆ classList c'
             /\ (innerHTML c = ExpiredMessage -> innerHTML c' = ExpiredMessage).
Proof.
  revert s c; induction evs as [|ev evs IH]; intros s c Hc; [now exists c|].
  unfold run in *; cbn [fold_left].
  destruct (step_keeps_container s c ev Hc) as (c1 & Hc1 & Hsub1 & Hex1).
  destruct (IH _ _ Hc1) as (c2 & Hc2 & Hsub2 & Hex2).
  exists c2. split; [exact Hc2|]. split; [|auto].
  etransitivity; eassumption.
Qed.

Lemma constructor_returns (s : State) (t0 t1 : Z) :
  exists s',
    constructor t0 t1 s = Normal tt s'
    /\ endDate s' = t0 + 259200000.
Proof.
  set (s0 := set_interval None
               (set_endDate (t0 + CONFIG.countdownDays * 24 * 60 * 60 * 1000) s)).
  assert (E0 : constructor t0 t1 s = init t1 s0) by reflexivity.
  rewrite E0. unfold init, mbind at 1, M_bind at 1, get.
  destruct (container s0) as [c|] eqn:Hc; [|now exists s0].
  destruct (updateDisplay_returns t1 c s0 Hc)
    as (s1 & c1 & E & _ & _ & _ & _ & _ & He & _).
  unfold startCountdown, mbind at 1 2, M_bind at 1 2. rewrite E.
  eexists. split; [reflexivity|]. cbn. exact He.
Qed.

(** X3. [new CountdownTimer()] never throws: on any page, with or without
    the container, with any of the four field elements missing and
    whatever the clock reads, the constructor returns, and the deadline it
    set is three days after the first clock reading. *)
Theorem constructor_never_throws (s : State) (t0 t1 : Z) :
  exists s',
    constructor t0 t1 s = Normal tt s'
    /\ endDate s' = t0 + 259200000.
Proof. apply constructor_returns. Qed.

(** X4. When the container exists the constructor registers exactly one
    new recurring timer, whatever the clock reads, and remembers its id;
    timers that were registered before stay registered. *)
Theorem constructor_starts_one_timer (s : State) (c : Container) (t0 t1 : Z) :
  container s = Some c ->
  exists s',
    constructor t0 t1 s = Normal tt s'
    /\ interval s' = Some (next_id s)
    /\ intervals s' = {[next_id s]} ∪ intervals s
    /\ next_id s' = S (next_id s).
Proof.
  intros Hc.
  set (s0 := set_interval None
               (set_endDate (t0 + CONFIG.countdownDays * 24 * 60 * 60 * 1000) s)).
  assert (E0 : constructor t0 t1 s = init t1 s0) by reflexivity.
  rewrite E0. unfold init, mbind at 1, M_bind at 1, get.
  change (container s0) with (container s). rewrite Hc.
  assert (Hs1 : exists s1, updateDisplay t1 s0 = Normal tt s1
                           /\ intervals s1 = intervals s
                           /\ next_id s1 = next_id s).
  { destruct (Z.lt_ge_cases (endDate s0 - t1) 0) as [Hd|Hd].
    - rewrite updateDisplay_expired, (handleExpiration_spec c s0 Hc)
        by exact Hd.
      eexists. split; [reflexivity|]. now cbn.
    - destruct (updateDisplay_running_frame t1 c s0 Hc Hd)
        as (s1 & c1 & E & _ & _ & _ & _ & _ & Hiv & _ & _ & Hn & _).
      exists s1. auto. }
  destruct Hs1 as (s1 & E & Hiv & Hn).
  unfold startCountdown, mbind at 1 2, M_bind at 1 2. rewrite E.
  eexists. split; [reflexivity|]. cbn. now rewrite Hiv, Hn.
Qed.

Lemma constructor_starts_one_timer_witness :
  exists s',
    constructor 0 0
      (set_container (Some sample_container) sample_without_container)
    = Normal tt s'
    /\ interval s' = Some 1%nat.
Proof.
  destruct (constructor_starts_one_timer
              (set_container (Some sample_container) sample_without_container)
              sample_container 0 0 eq_refl)
    as (s' & E & Hi & _).
  exists s'. split; [exact E|exact Hi].
Defined.

(** X5. A field element that is missing is skipped silently: the tick
    creates no element for its key and schedules no write for it, and with
    the container present the tick still returns normally. *)
Theorem missing_field_is_skipped (s : State) (now : Z) (key : string) :
  elements s !! key = None ->
  let s' := state_of (updateDisplay now s) in
  elements s' !! key = None
  /\ (exists added, timeouts s' = timeouts s ++ added
                    /\ ~ In key (List.map fst added))
  /\ (is_Some (container s) -> updateDisplay now s = Normal tt s').
Proof.
  intros Hel s'.
  destruct (updateDisplay_fields now s) as [Hexp Hrun]. fold s' in Hexp, Hrun.
  split; [|split].
  - destruct (Z.lt_ge_cases (endDate s - now) 0) as [Hd|Hd].
    + destruct (Hexp Hd) as [-> _]. exact Hel.
    + destruct (Hrun Hd) as [-> _].
      destruct (updateElements_spec (calculateTimeUnits (endDate s - now)) s)
        as (s1 & E & _ & _ & _ & Hsame).
      rewrite E; cbn [state_of]. rewrite Hsame; [exact Hel|].
      intros v _. unfold needs_update; cbn [fst]. now rewrite Hel.
  - destruct (Z.lt_ge_cases (endDate s - now) 0) as [Hd|Hd].
    + destruct (Hexp Hd) as [_ ->]. exists []. now rewrite app_nil_r.
    + destruct (Hrun Hd) as [_ ->].
      destruct (updateElements_spec (calculateTimeUnits (endDate s - now)) s)
        as (s1 & E & _ & _ & Hto & _).
      rewrite E; cbn [state_of]. eexists. split; [exact Hto|].
      rewrite List.map_map. intros Hin.
      apply in_map_iff in Hin as ([k v] & Hk & Hin). cbn in Hk. subst k.
      apply filter_In in Hin as [_ Hn].
      unfold needs_update in Hn; cbn [fst] in Hn. rewrite Hel in Hn.
      discriminate.
  - intros [c Hc]. subst s'.
    destruct (updateDisplay_returns now c s Hc) as (s1 & c1 & E & _).
    now rewrite E.
Qed.

Lemma missing_field_is_skipped_witness :
  let s := set_elements (delete "hours" (elements sample)) sample in
  elements (state_of (updateDisplay 1000 s)) !! "hours" = None
  /\ timeouts (state_of (updateDisplay 1000 s)) = [("seconds", "00")].
Proof.
  intros s. split; [|reflexivity].
  apply (missing_field_is_skipped s 1000 "hours"). reflexivity.
Defined.

(** X6. Once the container exists it is never lost and no class is ever
    removed from it, so every tick delivered after any run of browser
    events returns normally: a timer callback never ends in an uncaught
    exception. *)
Theorem ticks_never_throw (s : State) (c : Container) (evs : list Event) :
  container s = Some c ->
  (exists c', container (run evs s) = Some c'
              /\ classList c ⊆ classList c')
  /\ forall now, exists s', updateDisplay now (run evs s) = Normal tt s'.
Proof.
  intros Hc.
  destruct (run_keeps_container evs s c Hc) as (c' & Hc' & Hsub & _).
  split; [now exists c'|].
  intros now.
  destruct (updateDisplay_returns now c' _ Hc') as (s' & _ & E & _).
  now exists s'.
Qed.

Lemma ticks_never_throw_witness :
  exists s',
    updateDisplay 5000
      (run [IntervalFires 1 0; TimeoutFires; IntervalFires 1 2000] sample)
    = Normal tt s'.
Proof.
  apply (ticks_never_throw sample sample_container
           [IntervalFires 1 0; TimeoutFires; IntervalFires 1 2000] eq_refl).
Defined.

(** X7. Expired is terminal: once the container holds the expiry message,
    no browser event and no later tick, whatever the clock reads (even a
    clock set back before the deadline), puts other content in its
    place. *)
Theorem expired_is_terminal (s : State) (evs : list Event) (now : Z) :
  expired s ->
  expired (run evs s)
  /\ expired (state_of (updateDisplay now (run evs s))).
Proof.
  intros (c & Hc & Hex).
  destruct (run_keeps_container evs s c Hc) as (c1 & Hc1 & _ & Hex1).
  split; [exists c1; auto|].
  destruct (updateDisplay_returns now c1 _ Hc1)
    as (s2 & c2 & E & Hc2 & _ & Hex2 & _).
  rewrite E; cbn [state_of]. exists c2. auto.
Qed.

Lemma expired_is_terminal_witness :
  let s := state_of (updateDisplay 2000 sample) in
  expired s
  /\ expired (state_of (updateDisplay 0 (run [TimeoutFires] s))).
Proof.
  intros s.
  assert (Hex : expired s) by (eexists; split; reflexivity).
  split; [exact Hex|].
  apply (expired_is_terminal s [TimeoutFires] 0 Hex).
Defined.

(** X8. What the guard of [init] protects from: called on an object whose
    container is missing, [updateDisplay] throws exactly when the
    remainder is negative or the urgent test holds; on an expiring tick
    the timer has been cleared by the time it throws. *)
Theorem updateDisplay_without_container (s : State) (now : Z) :
  container s = None ->
  ((exists s', updateDisplay now s = TypeError s')
   <-> endDate s - now < 0
       \/ urgent_test (calculateTimeUnits (endDate s - now)) = true)
  /\ (endDate s - now < 0 ->
      forall id, interval s = Some id ->
                 exists s', updateDisplay now s = TypeError s'
                            /\ id ∉ intervals s').
Proof.
  intros Hc.
  assert (Hexp : endDate s - now < 0 ->
                 updateDisplay now s
                 = TypeError (state_of (clearInterval (interval s) s))).
  { intros Hd. rewrite updateDisplay_expired by exact Hd.
    unfold handleExpiration, mbind, M_bind, get, clearInterval, modify,
      the_container.
    destruct (interval s); cbn; now rewrite Hc. }
  assert (Hrun : 0 <= endDate s - now ->
                 exists s1,
                   updateDisplay now s
                   = if urgent_test (calculateTimeUnits (endDate s - now))
                     then TypeError s1 else Normal tt s1).
  { intros Hd.
    destruct (updateElements_spec (calculateTimeUnits (endDate s - now)) s)
      as (s1 & E & Hfr & _).
    exists s1. unfold updateDisplay, mbind at 1, M_bind at 1, get.
    destruct (Z.ltb_spec (endDate s - now) 0); [lia|].
    rewrite (bind_Normal _ _ _ _ _ E). unfold addPulseEffect.
    destruct (urgent_test _); [|reflexivity].
    unfold mbind, M_bind, the_container.
    now rewrite (frame_container _ _ Hfr), Hc. }
  split.
  - split.
    + intros (s' & E).
      destruct (Z.lt_ge_cases (endDate s - now) 0) as [Hd|Hd]; [now left|right].
      destruct (Hrun Hd) as (s1 & E1). rewrite E in E1.
      destruct (urgent_test _); [reflexivity|discriminate].
    + intros [Hd|Hu].
      * eexists. now apply Hexp.
      * destruct (Z.lt_ge_cases (endDate s - now) 0) as [Hd|Hd];
          [eexists; now apply Hexp|].
        destruct (Hrun Hd) as (s1 & E1). rewrite Hu in E1. now exists s1.
  - intros Hd id Hid. eexists. split; [now apply Hexp|].
    rewrite Hid. cbn.
    apply not_elem_of_difference. right. now apply elem_of_singleton.
Qed.

Lemma updateDisplay_without_container_witness :
  exists s',
    updateDisplay 2000 (set_container None sample) = TypeError s'
    /\ 1%nat ∉ intervals s'.
Proof.
  destruct (updateDisplay_without_container (set_container None sample) 2000
              eq_refl) as [_ H].
  apply (H ltac:(cbn; lia) 1%nat eq_refl).
Defined.

(** *** The display after the scheduled writes *)

Lemma flush_untouched (pend : list (string * string)) :
  forall (s : State) (k : string),
    timeouts s = pend ->
    ~ In k (List.map fst pend) ->
    elements (flush s) !! k = elements s !! k.
Proof.
  induction pend as [|[key v] rest IH]; intros s k Ht Hk.
  - now rewrite flush_nil.
  - rewrite (flush_cons s key v rest Ht).
    rewrite IH; [|reflexivity|intros Hin; apply Hk; now right].
    cbn. apply lookup_alter_ne. intros ->. apply Hk. now left.
Qed.

Lemma flush_empties (pend : list (string * string)) :
  forall s : State, timeouts s = pend -> timeouts (flush s) = [].
Proof.
  induction pend as [|[key v] rest IH]; intros s Ht.
  - now rewrite flush_nil.
  - rewrite (flush_cons s key v rest Ht). now apply IH.
Qed.

Lemma flush_written (pend : list (string * string)) :
  forall (s : State) (k v : string),
    timeouts s = pend ->
    NoDup (List.map fst pend) ->
    In (k, v) pend ->
    elements (flush s) !! k
    = (fun _ => mkField v "scale(1)" "") <$> elements s !! k.
Proof.
  induction pend as [|[key v1] rest IH]; intros s k v Ht Hnd Hin; [destruct Hin|].
  rewrite (flush_cons s key v1 rest Ht).
  cbn [List.map fst] in Hnd. apply NoDup_cons in Hnd as [Hkey Hnd].
  rewrite list_elem_of_In in Hkey.
  destruct Hin as [E|Hin].
  - injection E as -> ->.
    rewrite (flush_untouched rest); [|reflexivity|exact Hkey].
    cbn. rewrite lookup_alter_eq. now destruct (elements s !! k).
  - assert (Hne : key <> k).
    { intros ->. apply Hkey. apply in_map_iff. now exists (k, v). }
    rewrite (IH _ k v); [|reflexivity|exact Hnd|exact Hin].
    cbn. now rewrite lookup_alter_ne.
Qed.

Lemma NoDup_keys_filter {B} (P : string * B -> bool) (l : list (string * B)) :
  NoDup (List.map fst l) -> NoDup (List.map fst (List.filter P l)).
Proof.
  induction l as [|a l IH]; intros Hnd; [exact Hnd|].
  cbn [List.map] in Hnd. apply NoDup_cons in Hnd as [Ha Hnd].
  cbn [List.filter]. destruct (P a); [|now apply IH].
  cbn [List.map]. apply NoDup_cons. split; [|now apply IH].
  intros Hin. apply Ha. rewrite list_elem_of_In in Hin |- *.
  apply in_map_iff in Hin as (x & <- & Hx).
  apply filter_In in Hx as [Hx _]. now apply in_map.
Qed.

Lemma Object_entries_keys (timeUnits : TimeUnits) :
  List.map fst (Object_entries timeUnits)
  = ["days"; "hours"; "minutes"; "seconds"].
Proof. reflexivity. Qed.

(** X9. The display converges to the rendered time: after a running tick
    that found no write pending, once the writes it scheduled have run,
    every field element that exists shows the zero-padded value of its
    unit; a field that had to change carries the reset style, a field
    that did not is exactly as it was, and no write is left pending. *)
Theorem display_shows_rendered_time (s : State) (now : Z) :
  timeouts s = [] ->
  0 <= endDate s - now ->
  let s' := flush (state_of (updateDisplay now s)) in
  timeouts s' = []
  /\ forall key value el,
       In (key, value) (Object_entries (calculateTimeUnits (endDate s - now))) ->
       elements s !! key = Some el ->
       shown s' key = Some (utils.padZero value)
       /\ elements s' !! key
          = Some (if String.eqb (textContent el) (utils.padZero value) then el
                  else mkField (utils.padZero value) "scale(1)" "").
Proof.
  intros Hto Hd s'.
  destruct (updateDisplay_fields now s) as [_ Hrun].
  destruct (Hrun Hd) as [Hels Htos]. cbv zeta in Hels, Htos.
  set (entries := Object_entries (calculateTimeUnits (endDate s - now))) in *.
  destruct (updateElements_spec (calculateTimeUnits (endDate s - now)) s)
    as (s1 & E & _ & Hsh & Hto1 & Hsame).
  fold entries in Hto1, Hsame.
  rewrite E in Hels, Htos; cbn [state_of] in Hels, Htos.
  rewrite Hto in Hto1; cbn [app] in Hto1. rewrite Hto1 in Htos.
  set (s2 := state_of (updateDisplay now s)) in *.
  assert (Hnd : NoDup (List.map fst (timeouts s2))).
  { rewrite Htos, List.map_map.
    change (fun x => fst (rendered x)) with (@fst string Z).
    apply NoDup_keys_filter. subst entries. rewrite Object_entries_keys.
    repeat (apply NoDup_cons; split;
            [rewrite list_elem_of_In; cbn; intuition discriminate|]).
    apply NoDup_nil_2. }
  split; [now apply (flush_empties (timeouts s2))|].
  intros key value el Hin Hel.
  assert (Huniq : forall v, In (key, v) entries -> v = value).
  { intros v Hv. subst entries. cbn in Hin, Hv. intuition congruence. }
  assert (Hsh2 : textContent <$> elements s2 !! key = Some (textContent el)).
  { rewrite Hels. specialize (Hsh key). unfold shown in Hsh.
    now rewrite Hsh, Hel. }
  assert (Hgoal : elements s' !! key
                  = Some (if String.eqb (textContent el) (utils.padZero value)
                          then el
                          else mkField (utils.padZero value) "scale(1)" "")).
  { destruct (String.eqb (textContent el) (utils.padZero value)) eqn:Eq.
    - subst s'. rewrite (flush_untouched (timeouts s2)); [|reflexivity|].
      + rewrite Hels, Hsame; [exact Hel|].
        intros v Hv. rewrite (Huniq v Hv).
        unfold needs_update; cbn [fst snd]. now rewrite Hel, Eq.
      + rewrite Htos, List.map_map. intros Hin'.
        apply in_map_iff in Hin' as ([k v] & Hk & Hv). cbn in Hk. subst k.
        apply filter_In in Hv as [Hv Hn]. rewrite (Huniq v Hv) in Hn.
        unfold needs_update in Hn; cbn [fst snd] in Hn.
        rewrite Hel, Eq in Hn. discriminate.
    - subst s'.
      rewrite (flush_written (timeouts s2) s2 key (utils.padZero value));
        [|reflexivity|exact Hnd|].
      + destruct (elements s2 !! key); [reflexivity|discriminate].
      + rewrite Htos. apply in_map_iff. exists (key, value).
        split; [reflexivity|]. apply filter_In. split; [exact Hin|].
        unfold needs_update; cbn [fst snd]. now rewrite Hel, Eq. }
  split; [|exact Hgoal].
  unfold shown. rewrite Hgoal. cbn.
  destruct (String.eqb_spec (textContent el) (utils.padZero value)) as [->|];
    reflexivity.
Qed.

Lemma display_shows_rendered_time_witness :
  shown (flush (state_of (updateDisplay 1000 sample))) "seconds" = Some "00".
Proof.
  destruct (display_shows_rendered_time sample 1000 eq_refl ltac:(cbn; lia))
    as [_ H].
  apply (H "seconds" 0 (mkField "01" "" "")).
  - right; right; right; left; reflexivity.
  - reflexivity.
Defined.

(** X10. From construction until the deadline the clock face has two
    characters per field: for the deadline the constructor sets and any
    clock reading between the construction and that deadline, the whole
    days are at most 3 and each of the four fields renders as exactly two
    characters. *)
Theorem two_characters_until_deadline (s : State) (t0 t1 now : Z) :
  let s' := state_of (constructor t0 t1 s) in
  t0 <= now <= endDate s' ->
  let timeUnits := calculateTimeUnits (endDate s' - now) in
  0 <= days timeUnits <= 3
  /\ Forall (fun entry => String.length (snd (rendered entry)) = 2%nat)
            (Object_entries timeUnits).
Proof.
  intros s' Hnow timeUnits.
  destruct (constructor_returns s t0 t1) as (s1 & E & He).
  subst timeUnits s'. rewrite E in *; cbn [state_of] in *.
  rewrite He in *.
  assert (Hms : 0 <= t0 + 259200000 - now <= 259200000) by lia.
  destruct (calculateTimeUnits_bounds _ (proj1 Hms)) as (Hd & Hh & Hm & Hs).
  assert (Hd3 : days (calculateTimeUnits (t0 + 259200000 - now)) <= 3).
  { rewrite calculateTimeUnits_mod by lia. cbn [days].
    Z.div_mod_to_equations; lia. }
  split; [lia|].
  repeat constructor; cbn [snd rendered]; apply padZero_two_chars; lia.
Qed.

Lemma two_characters_until_deadline_witness :
  days (calculateTimeUnits
          (endDate (state_of (constructor 0 0 sample_without_container)) - 1))
  <= 3.
Proof.
  destruct (two_characters_until_deadline sample_without_container 0 0 1)
    as [[_ H] _]; [|exact H].
  vm_compute. split; discriminate.
Defined.

(** Outside that window the days need not fit: a clock set back by a
    hundred days makes the days field three characters wide. *)
Example days_field_three_characters :
  utils.padZero (days (calculateTimeUnits (103 * 86400000))) = "103".
Proof. reflexivity. Qed.

(** X11. A field whose text is the rendering of a value is left alone by
    the next update exactly when the new value is the same: equal values
    cause no pulse and no write, and different values always do. *)
Theorem update_is_noop_iff_same_value
        (s : State) (key : string) (el : Field) (v v' : Z) :
  elements s !! key = Some el ->
  textContent el = utils.padZero v ->
  0 <= v -> 0 <= v' ->
  (update_field (key, v') s = Normal tt s <-> v' = v).
Proof.
  intros Hel Htext Hv Hv'.
  rewrite update_field_spec.
  unfold needs_update; cbn [fst snd]. rewrite Hel, Htext.
  destruct (String.eqb_spec (utils.padZero v) (utils.padZero v')) as [E|E];
    cbn [negb].
  - split; [intros _|reflexivity]. now apply (padZero_inj v v').
  - split; [|intros ->; congruence].
    intros H. injection H as H.
    apply (f_equal (fun s => List.length (timeouts s))) in H.
    cbn in H. rewrite List.length_app in H. cbn in H. lia.
Qed.

Lemma update_is_noop_iff_same_value_witness :
  update_field ("seconds", 1) sample = Normal tt sample.
Proof.
  apply (update_is_noop_iff_same_value sample "seconds" (mkField "01" "" "") 1 1);
    [reflexivity|reflexivity|lia|lia|reflexivity].
Defined.

End CountdownMore.

(** ** AnimationManager: setup, stagger and batches *)

Section RevealMore.

Import AnimationManager.

Lemma style_of_prepare (s : State) (el' index el : nat) :
  style_of (prepare s (el', index)) el
  = if decide (el' = el)
    then mkStyle "0" "translateY(30px)"
           "opacity 600ms ease-out, transform 600ms ease-out"
           (utils.String_of (Z.of_nat index * 100) +:+ "ms")
    else style_of s el.
Proof.
  unfold prepare, style_of, observe; cbn [styles].
  rewrite lookup_insert. destruct (decide (el' = el)); reflexivity.
Qed.

Lemma observed_prepare_all (pairs : list (nat * nat)) (s : State) (el : nat) :
  el ∈ observed (fold_left prepare pairs s)
  <-> In el (List.map fst pairs) \/ el ∈ observed s.
Proof.
  revert s; induction pairs as [|[el' index] pairs IH]; intros s;
    cbn [fold_left List.map fst In]; [tauto|].
  rewrite IH. unfold prepare, observe; cbn [observed].
  rewrite elem_of_union, elem_of_singleton. intuition congruence.
Qed.

Lemma hidden_prepare_all (pairs : list (nat * nat)) (s : State) (el : nat) :
  In el (List.map fst pairs) \/ hidden s el ->
  hidden (fold_left prepare pairs s) el.
Proof.
  revert s; induction pairs as [|[el' index] pairs IH]; intros s;
    cbn [fold_left List.map fst In]; [tauto|].
  intros H. apply IH.
  destruct (in_dec Nat.eq_dec el (List.map fst pairs)) as [Hin|Hnin];
    [now left|right].
  unfold hidden. rewrite style_of_prepare.
  destruct (decide (el' = el)) as [->|Hne]; [split; reflexivity|].
  destruct H as [[E|Hin]|Hh]; [congruence|contradiction|exact Hh].
Qed.

Lemma combine_seq_keys (l : list nat) (k : nat) :
  List.map fst (List.combine l (List.seq k (List.length l))) = l.
Proof.
  revert k; induction l as [|a l IH]; intros k; [reflexivity|].
  cbn. now rewrite IH.
Qed.

(** X12. [setupIntersectionObserver] hides and observes exactly the
    matched elements: each of them ends transparent and shifted down 30px
    and is observed; every other element keeps its style and is not
    observed by the new observer. *)
Theorem setup_hides_exactly_the_targets
        (animatedElements : list nat) (s : State) (el : nat) :
  let s' := setupIntersectionObserver animatedElements s in
  (In el animatedElements -> hidden s' el /\ el ∈ observed s')
  /\ (~ In el animatedElements ->
      style_of s' el = style_of s el /\ el ∉ observed s').
Proof.
  intros s'. subst s'. unfold setupIntersectionObserver.
  set (pairs := List.combine animatedElements
                  (List.seq 0 (List.length animatedElements))).
  assert (Hkeys : List.map fst pairs = animatedElements)
    by apply combine_seq_keys.
  split; intros Hin.
  - split.
    + apply hidden_prepare_all. left. now rewrite Hkeys.
    + apply observed_prepare_all. left. now rewrite Hkeys.
  - split.
    + destruct (prepare_all_other pairs
                  {| styles := styles s; observed := ∅ |} el) as [E _];
        [now rewrite Hkeys|].
      exact E.
    + rewrite observed_prepare_all, Hkeys. cbn [observed].
      intros [H|H]; [contradiction|]. now apply not_elem_of_empty in H.
Qed.

Lemma setup_hides_exactly_the_targets_witness :
  hidden (setupIntersectionObserver [7%nat; 9%nat] (mkState ∅ ∅)) 9
  /\ (4%nat ∉ observed (setupIntersectionObserver [7%nat; 9%nat] (mkState ∅ ∅))).
Proof.
  destruct (setup_hides_exactly_the_targets [7%nat; 9%nat] (mkState ∅ ∅) 9)
    as [H9 _].
  destruct (setup_hides_exactly_the_targets [7%nat; 9%nat] (mkState ∅ ∅) 4)
    as [_ H4].
  split.
  - apply H9. right; left; reflexivity.
  - apply H4. cbn. intuition discriminate.
Defined.







Lemma intersecting_cons (entry : Entry) (entries : list Entry) :
  intersecting (entry :: entries)
  = if isIntersecting entry then {[target entry]} ∪ intersecting entries
    else intersecting entries.
Proof. unfold intersecting; cbn. now destruct (isIntersecting entry). Qed.

Lemma observed_on_entry (s : State) (entry : Entry) :
  observed (on_entry s entry)
  = if isIntersecting entry then observed s ∖ {[target entry]} else observed s.
Proof. unfold on_entry. now destruct (isIntersecting entry). Qed.

Lemma callback_effect (entries : list Entry) :
  forall s : State,
    observed (callback entries s) = observed s ∖ intersecting entries
    /\ forall el,
         style_of (callback entries s) el
         = if decide (el ∈ intersecting entries)
           then reveal_style (style_of s el) else style_of s el.
Proof.
  induction entries as [|e entries IH]; intros s.
  - split; [|reflexivity]. cbn. symmetry. apply difference_empty_L.
  - change (callback (e :: entries) s) with (callback entries (on_entry s e)).
    destruct (IH (on_entry s e)) as [Hobs Hst].
    rewrite intersecting_cons. split.
    + rewrite Hobs, observed_on_entry.
      destruct (isIntersecting e); [|reflexivity].
      apply difference_difference_l_L.
    + intros el. rewrite Hst, style_of_on_entry.
      destruct (isIntersecting e); cbn [andb]; [|reflexivity].
      destruct (decide (target e = el)) as [E|E].
      * rewrite bool_decide_eq_true_2 by exact E.
        rewrite (decide_True (P := el ∈ {[target e]} ∪ intersecting entries));
          [|apply elem_of_union_l; now apply elem_of_singleton].
        destruct (decide (el ∈ intersecting entries)); reflexivity.
      * rewrite bool_decide_eq_false_2 by exact E.
        destruct (decide (el ∈ intersecting entries)) as [Hin|Hnin].
        -- rewrite decide_True; [reflexivity|now apply elem_of_union_r].
        -- rewrite decide_False; [reflexivity|].
           rewrite elem_of_union, elem_of_singleton. intuition congruence.
Qed.

(** X14. What a batch of intersection entries does depends only on the
    set of targets it reports as intersecting: those targets are unobserved
    and take opacity 1 and translateY(0), keeping their transition; every
    other element and every entry with [isIntersecting] false changes
    nothing.  Order and repetition of entries within a batch are therefore
    irrelevant. *)
Theorem batch_effect_by_intersecting_targets
        (entries : list Entry) (s : State) :
  observed (callback entries s) = observed s ∖ intersecting entries
  /\ (forall el,
        style_of (callback entries s) el
        = if decide (el ∈ intersecting entries)
          then reveal_style (style_of s el) else style_of s el)
  /\ (forall entries',
        intersecting entries' = intersecting entries ->
        observed (callback entries' s) = observed (callback entries s)
        /\ forall el, style_of (callback entries' s) el
                      = style_of (callback entries s) el).
Proof.
  destruct (callback_effect entries s) as [Hobs Hst].
  split; [exact Hobs|]. split; [exact Hst|].
  intros entries' E.
  destruct (callback_effect entries' s) as [Hobs' Hst'].
  split; [now rewrite Hobs, Hobs', E|].
  intros el. now rewrite Hst, Hst', E.
Qed.

Lemma batch_effect_by_intersecting_targets_witness :
  let s := setupIntersectionObserver [7%nat; 9%nat] (mkState ∅ ∅) in
  style_of (callback [mkEntry 9 true; mkEntry 7 false; mkEntry 7 true;
                      mkEntry 9 true] s) 7
  = style_of (callback [mkEntry 7 true; mkEntry 9 true] s) 7.
Proof.
  intros s.
  destruct (batch_effect_by_intersecting_targets
              [mkEntry 7 true; mkEntry 9 true] s) as (_ & _ & H).
  apply (H [mkEntry 9 true; mkEntry 7 false; mkEntry 7 true; mkEntry 9 true]).
  apply set_eq. intros x. unfold intersecting. cbn.
  rewrite !elem_of_union, !elem_of_singleton. intuition.
Defined.

Lemma on_entry_two_states (s : State) (entry : Entry) (el : nat) :
  (hidden s el /\ el ∈ observed s) \/ (revealed s el /\ el ∉ observed s) ->
  (hidden (on_entry s entry) el /\ el ∈ observed (on_entry s entry))
  \/ (revealed (on_entry s entry) el /\ el ∉ observed (on_entry s entry)).
Proof.
  intros H. unfold hidden, revealed in *.
  rewrite style_of_on_entry, observed_on_entry.
  destruct (isIntersecting entry); cbn [andb]; [|exact H].
  destruct (decide (target entry = el)) as [E|E].
  - rewrite bool_decide_eq_true_2 by exact E. right. cbn.
    split; [split; reflexivity|].
    apply not_elem_of_difference. right. now apply elem_of_singleton.
  - rewrite bool_decide_eq_false_2 by exact E.
    rewrite elem_of_difference, elem_of_singleton.
    destruct H as [[Hh Ho]|[Hr Ho]]; [left|right]; split; auto.
    intros [Ho' _]. contradiction.
Qed.

(** X15. A reveal target is always in one of two states: hidden and still
    observed, or revealed and no longer observed.  After the setup and any
    batches of entries no matched element is left hidden without being
    watched, and none is watched after it was revealed. *)
Theorem target_hidden_iff_observed
        (animatedElements : list nat) (s : State) (el : nat)
        (batches : list (list Entry)) :
  In el animatedElements ->
  let s' := deliveries batches (setupIntersectionObserver animatedElements s) in
  (hidden s' el /\ el ∈ observed s') \/ (revealed s' el /\ el ∉ observed s').
Proof.
  intros Hin s'. subst s'.
  assert (H0 : let s0 := setupIntersectionObserver animatedElements s in
               (hidden s0 el /\ el ∈ observed s0)
               \/ (revealed s0 el /\ el ∉ observed s0)).
  { left. unfold setupIntersectionObserver. split.
    - apply hidden_prepare_all. left. now rewrite combine_seq_keys.
    - apply observed_prepare_all. left. now rewrite combine_seq_keys. }
  cbv zeta in H0.
  generalize dependent (setupIntersectionObserver animatedElements s).
  induction batches as [|b batches IH]; intros s0 H0; [exact H0|].
  unfold deliveries in *; cbn [fold_left]. apply IH.
  clear IH. revert s0 H0.
  induction b as [|e b IHb]; intros s0 H0; [exact H0|].
  unfold callback in *; cbn [fold_left]. apply IHb.
  now apply on_entry_two_states.
Qed.

Lemma target_hidden_iff_observed_witness :
  let s' := deliveries [[mkEntry 7 false]; [mkEntry 7 true]]
              (setupIntersectionObserver [7%nat; 9%nat] (mkState ∅ ∅)) in
  (hidden s' 9 /\ 9%nat ∈ observed s') \/ (revealed s' 9 /\ 9%nat ∉ observed s').
Proof.
  apply (target_hidden_iff_observed [7%nat; 9%nat] (mkState ∅ ∅) 9
           [[mkEntry 7 false]; [mkEntry 7 true]]).
  right; left; reflexivity.
Defined.

End RevealMore.

(** ** utils.throttle and utils.debounce: rate and coalescing *)

Section ThrottleRate.

Variable limit : Z.

Lemma call_after_limit {A W} (func : A -> W -> W) (due t : Z) (args : A) (w : W) :
  due <= t ->
  utils.call_at func limit (utils.mkThrottle true [due], w) (t, args)
  = (utils.mkThrottle true [t + limit], func args w).
Proof.
  intros Ht. unfold utils.call_at, utils.run_timers; cbn.
  destruct (Z.leb_spec due t); [|lia].
  destruct (Z.ltb_spec t due); [lia|]. reflexivity.
Qed.

Lemma last_cons_default {B} (l : list B) :
  forall x d d', List.last (x :: l) d = List.last (x :: l) d'.
Proof.
  induction l as [|y l IH]; intros x d d'; [reflexivity|].
  change (List.last (y :: l) d = List.last (y :: l) d'). apply IH.
Qed.

Lemma last_cons_self {B} (l : list B) (x d : B) :
  List.last (x :: l) d = List.last l x.
Proof.
  destruct l as [|y l]; [reflexivity|].
  change (List.last (y :: l) d = List.last (y :: l) x).
  apply last_cons_default.
Qed.

Lemma throttle_log_spaced (ts : list Z) :
  forall newest older,
    utils.chain (fun later earlier => earlier + limit <= later) newest older ->
    exists newest' older',
      snd (utils.calls utils.record limit (List.map (fun t => (t, t)) ts)
             (utils.mkThrottle true [newest + limit], newest :: older))
      = newest' :: older'
      /\ utils.chain (fun later earlier => earlier + limit <= later) newest' older'
      /\ List.last (newest' :: older') newest'
         = List.last (newest :: older) newest.
Proof.
  induction ts as [|t ts IH]; intros newest older Hch.
  - exists newest, older. split; [reflexivity|]. split; [exact Hch|reflexivity].
  - unfold utils.calls in *; cbn [List.map fold_left].
    destruct (Z.le_gt_cases (newest + limit) t) as [Hdue|Hearly].
    + rewrite (call_after_limit utils.record (newest + limit) t t
                 (newest :: older) Hdue).
      destruct (IH t (newest :: older)) as (n' & o' & E & Hch' & Hlast).
      { split; [exact Hdue|exact Hch]. }
      exists n', o'. split; [exact E|]. split; [exact Hch'|].
      rewrite Hlast.
      change (List.last (t :: newest :: older) t)
        with (List.last (newest :: older) t).
      apply last_cons_default.
    + rewrite (call_in_throttle utils.record limit (newest + limit) t t
                 (newest :: older) Hearly).
      now apply IH.
Qed.

(** X16. Throttle is a rate limit: however the calls arrive, [func] runs
    on the first call, and any two consecutive runs are at least [limit]
    milliseconds apart. *)
Theorem throttle_runs_at_least_limit_apart (t0 : Z) (ts : list Z) :
  exists newest older,
    snd (utils.calls utils.record limit
           (List.map (fun t => (t, t)) (t0 :: ts)) (utils.throttle, []))
    = newest :: older
    /\ utils.chain (fun later earlier => earlier + limit <= later) newest older
    /\ List.last (newest :: older) newest = t0.
Proof.
  unfold utils.calls; cbn [List.map fold_left].
  change (utils.call_at utils.record limit (utils.throttle, []) (t0, t0))
    with (utils.mkThrottle true [t0 + limit], [t0]).
  destruct (throttle_log_spaced ts t0 [] I) as (n' & o' & E & Hch & Hlast).
  exists n', o'. split; [exact E|]. split; [exact Hch|exact Hlast].
Qed.



End ThrottleRate.


Section DebounceFacts.

Context {A W : Type}.
Variable func : A -> W -> W.
Variable wait : Z.

Lemma debounced_at_new (t : Z) (args : A) (w : W) :
  utils.debounced_at func wait (utils.debounce, w) (t, args)
  = (utils.armed wait 0 t args, w).
Proof. reflexivity. Qed.

Lemma debounced_at_early (id : nat) (t t' : Z) (args args' : A) (w : W) :
  t' < t + wait ->
  utils.debounced_at func wait (utils.armed wait id t args, w) (t', args')
  = (utils.armed wait (S id) t' args', w).
Proof.
  intros Ht. unfold utils.debounced_at, utils.settle, utils.armed; cbn.
  destruct (Z.leb_spec (t + wait) t'); [lia|]. cbn.
  now rewrite Nat.eqb_refl.
Qed.

Lemma settle_due (id : nat) (t T : Z) (args : A) (w : W) :
  t + wait <= T ->
  utils.settle func T (utils.armed wait id t args, w)
  = (utils.mkDebounce (Some id) [] (S id), func args w).
Proof.
  intros Ht. unfold utils.settle, utils.armed; cbn.
  destruct (Z.leb_spec (t + wait) T); [|lia]. cbn.
  now rewrite Nat.eqb_refl.
Qed.


Lemma debounced_burst (evs : list (Z * A)) :
  forall id t args w,
    utils.chain (fun x y => y < x + wait) t (List.map fst evs) ->
    utils.debounced_calls func wait evs (utils.armed wait id t args, w)
    = (utils.armed wait (id + List.length evs) (fst (List.last evs (t, args)))
             (snd (List.last evs (t, args))), w).
Proof.
  induction evs as [|[t' a'] evs IH]; intros id t args w Hch.
  - cbn. now rewrite Nat.add_0_r.
  - cbn [List.map fst utils.chain] in Hch. destruct Hch as [Ht Hch].
    unfold utils.debounced_calls in *; cbn [fold_left].
    rewrite debounced_at_early by exact Ht.
    rewrite (IH (S id) t' a' w Hch).
    rewrite (last_cons_self evs (t', a') (t, args)).
    cbn [List.length].
    replace (id + S (List.length evs))%nat with (S id + List.length evs)%nat
      by lia.
    reflexivity.
Qed.


(** X18. Debounce coalesces a burst: while each call comes less than
    [wait] milliseconds after the one before, [func] does not run; once
    [wait] milliseconds have passed after the last call it has run exactly
    once, with the arguments of the last call, and no timer is left. *)
Theorem debounce_runs_last_call_of_burst
        (t0 : Z) (a0 : A) (evs : list (Z * A)) (w : W) :
  utils.chain (fun x y => y < x + wait) t0 (List.map fst evs) ->
  let last_call := List.last evs (t0, a0) in
  let st := utils.debounced_calls func wait ((t0, a0) :: evs) (utils.debounce, w) in
  snd st = w
  /\ forall T, fst last_call + wait <= T ->
               snd (utils.settle func T st) = func (snd last_call) w
               /\ utils.timers (fst (utils.settle func T st)) = [].
Proof.
  intros Hch last_call st. subst st last_call.
  unfold utils.debounced_calls; cbn [fold_left].
  rewrite debounced_at_new.
  pose proof (debounced_burst evs 0 t0 a0 w Hch) as E.
  unfold utils.debounced_calls in E. rewrite E.
  split; [reflexivity|].
  intros T HT. rewrite settle_due by exact HT. split; reflexivity.
Qed.


End DebounceFacts.

Lemma debounce_runs_last_call_of_burst_witness :
  snd (utils.settle utils.record 100
         (utils.debounced_calls utils.record 50 [(0, 10); (20, 20); (40, 30)]
            (utils.debounce, [])))
  = [30].
Proof.
  destruct (debounce_runs_last_call_of_burst utils.record 50 0 10
              [(20, 20); (40, 30)] []) as [_ H].
  - cbn. lia.
  - apply (H 100). cbn. lia.
Defined.


(** ** AnimationManager: the styles the scroll listener writes *)

Section ScrollFacts.

Import AnimationManager.

Context {Num : Type}.
Variables (fdiv fmul fmin : Num -> Num -> Num) (fgt : Num -> Num -> bool).
Variables (of_Z : Z -> Num) (to_string : Num -> string).
Variables (n0_95 n0_5 n0_1 : Num).

Local Abbreviation handleScroll :=
  (ScrollAnimations.handleScroll fdiv fmul fmin fgt of_Z to_string
     n0_95 n0_5 n0_1).
Local Abbreviation parallax_transform :=
  (ScrollAnimations.parallax_transform fmul of_Z to_string n0_5 n0_1).
Local Abbreviation move_shape :=
  (ScrollAnimations.move_shape fmul of_Z to_string n0_5 n0_1).
Local Abbreviation written_style :=
  (ScrollAnimations.written_style fmul fgt of_Z to_string n0_5 n0_1).
Local Abbreviation navbar_background :=
  (ScrollAnimations.navbar_background fdiv fmin of_Z to_string n0_95).
Local Abbreviation navbar_backdropFilter :=
  (ScrollAnimations.navbar_backdropFilter fgt of_Z).
Local Abbreviation indicator_opacity :=
  (ScrollAnimations.indicator_opacity fgt of_Z).

Lemma style_of_set_transform (s : State) (el' : nat) (v : string) (el : nat) :
  style_of (ScrollAnimations.set_transform el' v s) el
  = if decide (el' = el)
    then mkStyle (opacity (style_of s el)) v (transition (style_of s el))
                 (transitionDelay (style_of s el))
    else style_of s el.
Proof.
  unfold ScrollAnimations.set_transform, style_of; cbn [styles].
  rewrite lookup_insert. destruct (decide (el' = el)); subst; reflexivity.
Qed.

Lemma style_of_set_opacity (s : State) (el' : nat) (v : string) (el : nat) :
  style_of (ScrollAnimations.set_opacity el' v s) el
  = if decide (el' = el)
    then mkStyle v (transform (style_of s el)) (transition (style_of s el))
                 (transitionDelay (style_of s el))
    else style_of s el.
Proof.
  unfold ScrollAnimations.set_opacity, style_of; cbn [styles].
  rewrite lookup_insert. destruct (decide (el' = el)); subst; reflexivity.
Qed.

Lemma parallax_effect (scrollY : Num) (shapes : list nat) :
  forall (k : nat) (s : State) (el : nat),
    let s' := fold_left (move_shape scrollY)
                (List.combine shapes (List.seq k (List.length shapes))) s in
    observed s' = observed s
    /\ style_of s' el
       = mkStyle (opacity (style_of s el))
           (match ScrollAnimations.last_position shapes k el with
            | Some i => parallax_transform scrollY i
            | None => transform (style_of s el)
            end)
           (transition (style_of s el)) (transitionDelay (style_of s el)).
Proof.
  induction shapes as [|a shapes IH]; intros k s el.
  - cbn. split; [reflexivity|]. now destruct (style_of s el).
  - cbn [List.length List.seq List.combine fold_left
         ScrollAnimations.last_position].
    destruct (IH (S k) (move_shape scrollY s (a, k)) el) as [Hobs Hst].
    cbv zeta in Hobs, Hst |- *. rewrite Hobs, Hst. split; [reflexivity|].
    cbn [ScrollAnimations.move_shape]. rewrite style_of_set_transform.
    destruct (ScrollAnimations.last_position shapes (S k) el);
      destruct (decide (a = el)); reflexivity.
Qed.

Lemma last_position_None (shapes : list nat) (k el : nat) :
  ~ In el shapes -> ScrollAnimations.last_position shapes k el = None.
Proof.
  revert k; induction shapes as [|a shapes IH]; intros k Hnin; [reflexivity|].
  cbn. rewrite IH by (intros H; apply Hnin; now right).
  destruct (decide (a = el)); [|reflexivity].
  exfalso. apply Hnin. now left.
Qed.

Lemma last_position_NoDup (shapes : list nat) :
  forall k i el,
    NoDup shapes -> shapes !! i = Some el ->
    ScrollAnimations.last_position shapes k el = Some (k + i)%nat.
Proof.
  induction shapes as [|a shapes IH]; intros k i el Hnd Hi; [discriminate|].
  apply NoDup_cons in Hnd as [Ha Hnd]. cbn.
  destruct i as [|i]; cbn in Hi.
  - injection Hi as ->.
    rewrite last_position_None by (now rewrite <- list_elem_of_In).
    rewrite Nat.add_0_r. destruct (decide (el = el)); [reflexivity|congruence].
  - rewrite (IH (S k) i el Hnd Hi). f_equal. lia.
Qed.

Lemma handleScroll_effect (found : ScrollAnimations.Found) (scrollY : Num)
      (p : ScrollAnimations.Page) (el : nat) :
  let p' := handleScroll found scrollY p in
  style_of (ScrollAnimations.reveal p') el
  = written_style found scrollY el (style_of (ScrollAnimations.reveal p) el)
  /\ observed (ScrollAnimations.reveal p') = observed (ScrollAnimations.reveal p)
  /\ ScrollAnimations.background p' !! el
     = (if decide (ScrollAnimations.navbar found = Some el)
        then Some (navbar_background scrollY)
        else ScrollAnimations.background p !! el)
  /\ ScrollAnimations.backdropFilter p' !! el
     = (if decide (ScrollAnimations.navbar found = Some el)
        then Some (navbar_backdropFilter scrollY)
        else ScrollAnimations.backdropFilter p !! el).
Proof.
  cbv zeta. unfold ScrollAnimations.handleScroll, ScrollAnimations.updateParallax.
  destruct found as [nb si shapes]; cbn [ScrollAnimations.navbar
    ScrollAnimations.scrollIndicator ScrollAnimations.floatingShapes].
  set (p1 := match nb with Some _ => _ | None => p end).
  assert (H1 : ScrollAnimations.reveal p1 = ScrollAnimations.reveal p)
    by (subst p1; now destruct nb).
  set (p2 := match si with Some _ => _ | None => p1 end).
  assert (H2 : ScrollAnimations.background p2 = ScrollAnimations.background p1
               /\ ScrollAnimations.backdropFilter p2
                  = ScrollAnimations.backdropFilter p1)
    by (subst p2; now destruct si).
  destruct H2 as [Hbg Hbf].
  cbn [ScrollAnimations.reveal ScrollAnimations.background
       ScrollAnimations.backdropFilter].
  destruct (parallax_effect scrollY shapes 0 (ScrollAnimations.reveal p2) el)
    as [Hobs Hst].
  cbv zeta in Hobs, Hst. rewrite Hobs, Hst, Hbg, Hbf.
  split; [|split; [|split]].
  - unfold ScrollAnimations.written_style;
      cbn [ScrollAnimations.scrollIndicator ScrollAnimations.floatingShapes].
    subst p2. destruct si as [si|]; cbn [ScrollAnimations.reveal].
    + rewrite style_of_set_opacity, H1.
      destruct (decide (si = el)) as [->|Hne].
      * rewrite decide_True by reflexivity. reflexivity.
      * rewrite decide_False by congruence. reflexivity.
    + rewrite H1. rewrite decide_False by discriminate. reflexivity.
  - subst p2. destruct si; cbn [ScrollAnimations.reveal]; now rewrite H1.
  - subst p1. destruct nb as [nb|]; cbn [ScrollAnimations.background].
    + rewrite lookup_insert. destruct (decide (nb = el)) as [->|Hne].
      * now rewrite decide_True.
      * rewrite decide_False by congruence. reflexivity.
    + now rewrite decide_False by discriminate.
  - subst p1. destruct nb as [nb|]; cbn [ScrollAnimations.backdropFilter].
    + rewrite lookup_insert. destruct (decide (nb = el)) as [->|Hne].
      * now rewrite decide_True.
      * rewrite decide_False by congruence. reflexivity.
    + now rewrite decide_False by discriminate.
Qed.

(** X20. The scroll listener writes to the navigation bar, the scroll
    indicator and the floating shapes only: every other element keeps its
    opacity, transform, background and backdrop filter, no element's
    transition or transition delay is touched, and the set of observed
    reveal targets stays as it is.  A reveal target that is none of the
    three therefore stays revealed, or hidden, through any scroll. *)
Theorem scroll_touches_only_its_elements
        (found : ScrollAnimations.Found) (scrollY : Num)
        (p : ScrollAnimations.Page) (el : nat) :
  let p' := handleScroll found scrollY p in
  observed (ScrollAnimations.reveal p') = observed (ScrollAnimations.reveal p)
  /\ transition (style_of (ScrollAnimations.reveal p') el)
     = transition (style_of (ScrollAnimations.reveal p) el)
  /\ transitionDelay (style_of (ScrollAnimations.reveal p') el)
     = transitionDelay (style_of (ScrollAnimations.reveal p) el)
  /\ (ScrollAnimations.navbar found <> Some el ->
      ScrollAnimations.scrollIndicator found <> Some el ->
      ~ In el (ScrollAnimations.floatingShapes found) ->
      style_of (ScrollAnimations.reveal p') el
      = style_of (ScrollAnimations.reveal p) el
      /\ ScrollAnimations.background p' !! el
         = ScrollAnimations.background p !! el
      /\ ScrollAnimations.backdropFilter p' !! el
         = ScrollAnimations.backdropFilter p !! el).
Proof.
  destruct (handleScroll_effect found scrollY p el) as (Hst & Hobs & Hbg & Hbf).
  cbv zeta in *. rewrite Hst, Hbg, Hbf.
  split; [exact Hobs|]. split; [reflexivity|]. split; [reflexivity|].
  intros Hnb Hsi Hsh.
  rewrite !decide_False by exact Hnb.
  split; [|split; reflexivity].
  unfold ScrollAnimations.written_style.
  rewrite decide_False by exact Hsi.
  rewrite last_position_None by exact Hsh.
  now destruct (style_of (ScrollAnimations.reveal p) el).
Qed.

(** X21. Parallax depth by position: the floating shape at position i is
    given the transform computed with speed (i + 1) * 0.5, whatever else
    the listener wrote, provided the shapes are distinct nodes. *)
Theorem parallax_speed_by_position
        (found : ScrollAnimations.Found) (scrollY : Num)
        (p : ScrollAnimations.Page) (i el : nat) :
  NoDup (ScrollAnimations.floatingShapes found) ->
  ScrollAnimations.floatingShapes found !! i = Some el ->
  transform (style_of (ScrollAnimations.reveal (handleScroll found scrollY p)) el)
  = "translateY("
      +:+ to_string (fmul scrollY (fmul (of_Z (Z.of_nat i + 1)) n0_5))
      +:+ "px) rotate("
      +:+ to_string (fmul (fmul scrollY (fmul (of_Z (Z.of_nat i + 1)) n0_5)) n0_1)
      +:+ "deg)".
Proof.
  intros Hnd Hi.
  destruct (handleScroll_effect found scrollY p el) as (Hst & _).
  cbv zeta in Hst. rewrite Hst.
  unfold ScrollAnimations.written_style; cbn [transform].
  now rewrite (last_position_NoDup _ 0 i el Hnd Hi).
Qed.

(** X22. No history: what the page shows after the listener has run
    depends on the offset of its last run only.  Running it with one
    offset and then with another leaves every element exactly as running
    it with the second offset alone. *)
Theorem scroll_latest_offset_wins
        (found : ScrollAnimations.Found) (y y' : Num)
        (p : ScrollAnimations.Page) (el : nat) :
  let p1 := handleScroll found y (handleScroll found y' p) in
  let p2 := handleScroll found y p in
  style_of (ScrollAnimations.reveal p1) el
  = style_of (ScrollAnimations.reveal p2) el
  /\ observed (ScrollAnimations.reveal p1) = observed (ScrollAnimations.reveal p2)
  /\ ScrollAnimations.background p1 !! el = ScrollAnimations.background p2 !! el
  /\ ScrollAnimations.backdropFilter p1 !! el
     = ScrollAnimations.backdropFilter p2 !! el.
Proof.
  destruct (handleScroll_effect found y (handleScroll found y' p) el)
    as (Hst1 & Hobs1 & Hbg1 & Hbf1).
  destruct (handleScroll_effect found y' p el) as (Hst0 & Hobs0 & Hbg0 & Hbf0).
  destruct (handleScroll_effect found y p el) as (Hst2 & Hobs2 & Hbg2 & Hbf2).
  cbv zeta in *.
  rewrite Hst1, Hst0, Hst2, Hobs1, Hobs0, Hobs2, Hbg1, Hbg0, Hbg2,
    Hbf1, Hbf0, Hbf2.
  split; [|split; [reflexivity|split]].
  - unfold ScrollAnimations.written_style; cbn.
    destruct (decide (ScrollAnimations.scrollIndicator found = Some el));
      destruct (ScrollAnimations.last_position
                  (ScrollAnimations.floatingShapes found) 0 el); reflexivity.
  - destruct (decide (ScrollAnimations.navbar found = Some el)); reflexivity.
  - destruct (decide (ScrollAnimations.navbar found = Some el)); reflexivity.
Qed.

End ScrollFacts.

Lemma scroll_touches_only_its_elements_witness :
  let found := ScrollAnimations.mkFound (Some 1%nat) (Some 2%nat) [3%nat; 4%nat] in
  let p := ScrollAnimations.mkPage
             (AnimationManager.callback [AnimationManager.mkEntry 7 true]
                (AnimationManager.setupIntersectionObserver [7%nat; 9%nat]
                   (AnimationManager.mkState ∅ ∅))) ∅ ∅ in
  AnimationManager.style_of
    (ScrollAnimations.reveal
       (ScrollAnimations.handleScroll Z.div Z.mul Z.min Z.gtb id
          utils.String_of 1 1 1 found 120 p)) 7
  = AnimationManager.style_of (ScrollAnimations.reveal p) 7.
Proof.
  intros found p.
  destruct (scroll_touches_only_its_elements Z.div Z.mul Z.min Z.gtb id
              utils.String_of 1 1 1 found 120 p 7) as (_ & _ & _ & H).
  apply H; cbn; [discriminate|discriminate|intuition discriminate].
Defined.

Lemma parallax_speed_by_position_witness :
  let found := ScrollAnimations.mkFound None None [3%nat; 4%nat] in
  AnimationManager.transform
    (AnimationManager.style_of
       (ScrollAnimations.reveal
          (ScrollAnimations.handleScroll Z.div Z.mul Z.min Z.gtb id
             utils.String_of 1 1 1 found 120 (ScrollAnimations.mkPage
                (AnimationManager.mkState ∅ ∅) ∅ ∅))) 4)
  = "translateY(240px) rotate(240deg)".
Proof.
  intros found.
  apply (parallax_speed_by_position Z.div Z.mul Z.min Z.gtb id
           utils.String_of 1 1 1 found 120 _ 1 4).
  - repeat (apply NoDup_cons; split;
            [rewrite list_elem_of_In; cbn; intuition discriminate|]).
    apply NoDup_nil_2.
  - reflexivity.
Defined.

(** ** PerformanceOptimizer: lazy images *)

Section LazyFacts.

Import LazyImages.

Lemma lazy_on_entry_effect (s : State) (entry : AnimationManager.Entry)
      (img : nat) :
  images (on_entry s entry) !! img
  = (if AnimationManager.isIntersecting entry
        && bool_decide (AnimationManager.target entry = img)
     then (fun i => mkImage (dataset_src i) (dataset_src i)
                      (classList i ∖ {["lazy"]})) <$> images s !! img
     else images s !! img)
  /\ observed (on_entry s entry)
     = (if AnimationManager.isIntersecting entry
        then observed s ∖ {[AnimationManager.target entry]} else observed s).
Proof.
  unfold on_entry.
  destruct (AnimationManager.isIntersecting entry); cbn [andb images observed];
    [|now split].
  split; [|reflexivity].
  destruct (decide (AnimationManager.target entry = img)) as [E|E].
  - rewrite bool_decide_eq_true_2 by exact E. subst img.
    now rewrite lookup_alter_eq.
  - rewrite bool_decide_eq_false_2 by exact E. now rewrite lookup_alter_ne.
Qed.

Lemma lazy_callback_effect (entries : list AnimationManager.Entry) :
  forall (s : State) (img : nat),
    images (callback entries s) !! img
    = (if decide (img ∈ AnimationManager.intersecting entries)
       then (fun i => mkImage (dataset_src i) (dataset_src i)
                        (classList i ∖ {["lazy"]})) <$> images s !! img
       else images s !! img)
    /\ observed (callback entries s)
       = observed s ∖ AnimationManager.intersecting entries.
Proof.
  induction entries as [|e entries IH]; intros s img.
  - split; [reflexivity|]. cbn. symmetry. apply difference_empty_L.
  - change (callback (e :: entries) s) with (callback entries (on_entry s e)).
    destruct (IH (on_entry s e) img) as [Him Hobs].
    destruct (lazy_on_entry_effect s e img) as [Him1 Hobs1].
    rewrite Him, Hobs, Him1, Hobs1, intersecting_cons.
    destruct (AnimationManager.isIntersecting e); cbn [andb];
      [|now split].
    split; [|apply difference_difference_l_L].
    destruct (decide (AnimationManager.target e = img)) as [E|E].
    + rewrite bool_decide_eq_true_2 by exact E.
      rewrite (decide_True
                 (P := img ∈ {[AnimationManager.target e]}
                             ∪ AnimationManager.intersecting entries));
        [|apply elem_of_union_l; now apply elem_of_singleton].
      destruct (decide (img ∈ AnimationManager.intersecting entries));
        [|reflexivity].
      destruct (images s !! img) as [i|]; [|reflexivity]. cbn.
      do 2 f_equal.
      now rewrite difference_difference_l_L, union_idemp_L.
    + rewrite bool_decide_eq_false_2 by exact E.
      destruct (decide (img ∈ AnimationManager.intersecting entries))
        as [Hin|Hnin].
      * rewrite decide_True; [reflexivity|now apply elem_of_union_r].
      * rewrite decide_False; [reflexivity|].
        rewrite elem_of_union, elem_of_singleton. intuition congruence.
Qed.

Lemma lazy_deliveries_concat (batches : list (list AnimationManager.Entry)) :
  forall s : State, deliveries batches s = callback (List.concat batches) s.
Proof.
  induction batches as [|b batches IH]; intros s; [reflexivity|].
  unfold deliveries in *; cbn [fold_left List.concat].
  rewrite IH. unfold callback. now rewrite fold_left_app.
Qed.

(** X23. A lazy image gets its real source exactly when an entry reports
    it as intersecting: after any batches of entries, an image that was
    reported has [src] equal to its [data-src], has lost the class [lazy]
    and is no longer observed, however often it was reported; an image
    that was never reported is exactly as it was and, if it was observed,
    still is. *)
Theorem lazy_image_loads_on_intersection
        (s : State) (batches : list (list AnimationManager.Entry))
        (img : nat) (i : Image) :
  images s !! img = Some i ->
  let s' := deliveries batches s in
  (img ∈ AnimationManager.intersecting (List.concat batches) ->
   images s' !! img
   = Some (mkImage (dataset_src i) (dataset_src i) (classList i ∖ {["lazy"]}))
   /\ loaded s' img /\ img ∉ observed s')
  /\ (img ∉ AnimationManager.intersecting (List.concat batches) ->
      images s' !! img = Some i /\ (img ∈ observed s -> img ∈ observed s')).
Proof.
  intros Hi s'. subst s'. rewrite lazy_deliveries_concat.
  destruct (lazy_callback_effect (List.concat batches) s img) as [Him Hobs].
  rewrite Him, Hobs, Hi. split; intros Hin.
  - rewrite decide_True by exact Hin. cbn.
    split; [reflexivity|]. split.
    + eexists. split; [rewrite Him, decide_True by exact Hin; now rewrite Hi|].
      cbn. split; [reflexivity|].
      apply not_elem_of_difference. right. now apply elem_of_singleton.
    + apply not_elem_of_difference. now right.
  - rewrite decide_False by exact Hin. split; [reflexivity|].
    intros Ho. now apply elem_of_difference.
Qed.

Lemma lazy_image_loads_on_intersection_witness :
  let s := lazyLoadImages true [5%nat; 6%nat]
             (mkState (<[5%nat := mkImage "" "capa.png" {["lazy"]}]>
                         (<[6%nat := mkImage "" "b.png" {["lazy"]}]> ∅)) ∅) in
  let s' := deliveries [[AnimationManager.mkEntry 5 false];
                        [AnimationManager.mkEntry 5 true]] s in
  src <$> images s' !! 5%nat = Some "capa.png"
  /\ src <$> images s' !! 6%nat = Some "".
Proof.
  intros s s'.
  destruct (lazy_image_loads_on_intersection s
              [[AnimationManager.mkEntry 5 false];
               [AnimationManager.mkEntry 5 true]]
              5 (mkImage "" "capa.png" {["lazy"]}) eq_refl) as [H5 _].
  destruct (lazy_image_loads_on_intersection s
              [[AnimationManager.mkEntry 5 false];
               [AnimationManager.mkEntry 5 true]]
              6 (mkImage "" "b.png" {["lazy"]}) eq_refl) as [_ H6].
  fold s' in H5, H6. split.
  - destruct H5 as [E _]; [|now rewrite E].
    unfold AnimationManager.intersecting; cbn.
    apply elem_of_union_l. now apply elem_of_singleton.
  - destruct H6 as [E _]; [|now rewrite E].
    unfold AnimationManager.intersecting; cbn.
    rewrite elem_of_union, elem_of_singleton.
    intros [H|H]; [discriminate|now apply not_elem_of_empty in H].
Defined.

End LazyFacts.

(** ** InteractiveEffects: the click ripple *)

Section RippleFacts.

Context {Num : Type}.
Variables (fmax fsub : Num -> Num -> Num) (fhalf : Num -> Num).
Variable to_string : Num -> string.

Local Abbreviation step := (Ripple.step fmax fsub fhalf to_string).
Local Abbreviation run := (Ripple.run fmax fsub fhalf to_string).
Local Abbreviation flush := (Ripple.flush fmax fsub fhalf to_string).

Lemma step_ripples_pending (s : Ripple.State) (ev : Ripple.Event) :
  Ripple.ripples_pending s -> Ripple.ripples_pending (step s ev).
Proof.
  intros Hinv el b r Hb Hr. destruct ev as [element event|]; cbn in *.
  - apply in_or_app.
    destruct (decide (element = el)) as [->|Hne].
    + rewrite lookup_insert_eq in Hb. injection Hb as <-. cbn in Hr.
      rewrite List.map_app in Hr. apply in_app_or in Hr as [Hr|Hr].
      * left. unfold Ripple.button_of in Hr.
        destruct (Ripple.buttons s !! el) as [b0|] eqn:Eb; [|destruct Hr].
        now apply (Hinv el b0).
      * right. exact Hr.
    + rewrite lookup_insert_ne in Hb by exact Hne. left.
      now apply (Hinv el b).
  - destruct (Ripple.removals s) as [|ripple rest] eqn:Er; cbn in *.
    + now apply (Hinv el b).
    + rewrite lookup_fmap in Hb.
      destruct (Ripple.buttons s !! el) as [b0|] eqn:Eb; [|discriminate].
      injection Hb as <-. cbn in Hr.
      apply in_map_iff in Hr as ([r' st] & <- & Hin).
      apply filter_In in Hin as [Hin Hne]. cbn in Hne |- *.
      assert (H : In r' (ripple :: rest)).
      { rewrite <- Er. apply (Hinv el b0 r' Eb).
        apply in_map_iff. now exists (r', st). }
      destruct H as [->|H]; [|exact H].
      rewrite Nat.eqb_refl in Hne. discriminate.
Qed.

Lemma run_ripples_pending (evs : list Ripple.Event) (s : Ripple.State) :
  Ripple.ripples_pending s -> Ripple.ripples_pending (run evs s).
Proof.
  revert s; induction evs as [|ev evs IH]; intros s Hinv; [exact Hinv|].
  unfold Ripple.run in *; cbn [fold_left]. now apply IH, step_ripples_pending.
Qed.

Lemma flush_removals (n : nat) :
  forall s : Ripple.State,
    List.length (Ripple.removals s) = n ->
    Ripple.removals (run (List.repeat Ripple.RemovalFires n) s) = [].
Proof.
  induction n as [|n IH]; intros s Hn.
  - cbn. now destruct (Ripple.removals s).
  - destruct (Ripple.removals s) as [|ripple rest] eqn:Er; [discriminate|].
    unfold Ripple.run in *; cbn [List.repeat fold_left Ripple.step].
    rewrite Er. apply IH. cbn in Hn |- *. congruence.
Qed.

(** X24. Ripples never pile up: however many clicks land on whatever
    buttons, and however they interleave with removals, once the pending
    removals have run no ripple span is left on any button. *)
Theorem ripples_all_removed
        (evs : list Ripple.Event) (head0 : list string) (element : nat) :
  let s := flush (run evs (Ripple.fresh head0)) in
  Ripple.ripples (Ripple.button_of s element) = []
  /\ Ripple.removals s = [].
Proof.
  intros s.
  assert (Hinv : Ripple.ripples_pending s).
  { subst s. unfold Ripple.flush. apply run_ripples_pending.
    apply run_ripples_pending. intros el b r Hb. cbn in Hb.
    rewrite lookup_empty in Hb. discriminate. }
  assert (Hrem : Ripple.removals s = []).
  { subst s. unfold Ripple.flush. now apply flush_removals. }
  split; [|exact Hrem].
  unfold Ripple.button_of.
  destruct (Ripple.buttons s !! element) as [b|] eqn:Eb; [|reflexivity].
  cbn. destruct (Ripple.ripples b) as [|[r st] rs] eqn:Er; [reflexivity|].
  exfalso. specialize (Hinv element b r Eb). rewrite Er, Hrem in Hinv.
  apply Hinv. now left.
Qed.

Lemma step_head (s : Ripple.State) (ev : Ripple.Event) :
  Ripple.head (step s ev)
  = if Ripple.is_click ev && negb (bool_decide ("ripple-animation" ∈ Ripple.head s))
    then Ripple.head s ++ ["ripple-animation"] else Ripple.head s.
Proof.
  destruct ev as [element event|]; cbn.
  - now destruct (bool_decide _).
  - now destruct (Ripple.removals s).
Qed.

(** X25. The ripple style sheet is injected by the first click and never
    again: after any clicks and removals the head holds it once if it was
    absent and a click occurred, and is unchanged otherwise. *)
Theorem ripple_style_injected_once (evs : list Ripple.Event) (s : Ripple.State) :
  Ripple.head (run evs s)
  = if existsb Ripple.is_click evs
       && negb (bool_decide ("ripple-animation" ∈ Ripple.head s))
    then Ripple.head s ++ ["ripple-animation"] else Ripple.head s.
Proof.
  revert s; induction evs as [|ev evs IH]; intros s; [reflexivity|].
  unfold Ripple.run in *; cbn [fold_left existsb].
  rewrite IH, step_head.
  destruct (Ripple.is_click ev); cbn [andb orb]; [|reflexivity].
  destruct (bool_decide ("ripple-animation" ∈ Ripple.head s)) eqn:Eh;
    cbn [negb andb].
  - rewrite Eh. now rewrite andb_false_r.
  - rewrite bool_decide_eq_true_2; [now rewrite andb_false_r|].
    apply elem_of_app. right. now apply list_elem_of_singleton.
Qed.

End RippleFacts.

(** Two clicks on one button, then the two removals, with integer
    geometry: two ripples while pending, none afterwards, one style
    sheet. *)
Example two_clicks_then_removals :
  let click := Ripple.mkClick 100 40 10 20 60 30 in
  let s := Ripple.run Z.max Z.sub (fun n => n / 2) utils.String_of
             [Ripple.Clicked 1 click; Ripple.Clicked 1 click]
             (Ripple.fresh []) in
  List.map snd (Ripple.ripples (Ripple.button_of s 1))
  = [Ripple.mkRippleStyle "100px" "100px" "0px" "-40px";
     Ripple.mkRippleStyle "100px" "100px" "0px" "-40px"]
  /\ Ripple.head s = ["ripple-animation"]
  /\ Ripple.ripples
       (Ripple.button_of
          (Ripple.flush Z.max Z.sub (fun n => n / 2) utils.String_of s) 1)
     = [].
Proof. repeat split; reflexivity. Qed.

(** ** InteractiveEffects: the card tilt and the reveal *)

Section CardTiltFacts.

Import AnimationManager.

Context {Num : Type}.
Variables (fadd fsub fdiv : Num -> Num -> Num).
Variables (of_Z : Z -> Num) (to_string : Num -> string).

Local Abbreviation step := (CardTilt.step fadd fsub fdiv of_Z to_string).
Local Abbreviation run := (CardTilt.run fadd fsub fdiv of_Z to_string).





End CardTiltFacts.

(** A card hovered and left before it was revealed is still transparent,
    though its transform is no longer the hidden one. *)
Example hover_before_reveal :
  let s := AnimationManager.setupIntersectionObserver [7%nat]
             (AnimationManager.mkState ∅ ∅) in
  let s' := CardTilt.run Z.add Z.sub Z.div id utils.String_of
              [CardTilt.MouseEnter 7;
               CardTilt.MouseMove 7 (CardTilt.mkMove 0 0 100 100 80 20);
               CardTilt.MouseLeave 7] s in
  AnimationManager.style_of s' 7
  = AnimationManager.mkStyle "0" "translateY(0) rotateX(0) rotateY(0)"
      "transform 0.3s ease-out" "0ms".
Proof. reflexivity. Qed.
